(** * CodeParser (source/utils/parser.ts): a shallow embedding

    The parser walks a directory tree, picks the files whose extension is in
    [SUPPORTED_EXTENSIONS] and cuts each of them into chunks: Python files by
    indentation, JavaScript/TypeScript files by brace matching.  Declarations
    are located with regular expressions, so the development contains a small
    backtracking matcher with the ECMAScript priorities (ordered alternation,
    greedy and lazy repetition, capture groups, the [^] and [$] assertions)
    and the three patterns of the source written as terms of it. *)

From Stdlib Require Import String Ascii.
From Stdlib Require Import List NArith ZArith Arith Lia Bool.
Import ListNotations.

Set Implicit Arguments.
Set Warnings "-register-all".

(** ** JavaScript strings *)

(** A JavaScript string is a sequence of UTF-16 code units. *)
Definition char16 := N.
Definition jsstring := list char16.

(** Literals of the source, written as Rocq strings (ASCII only). *)
Definition u (s : string) : jsstring := map N_of_ascii (list_ascii_of_string s).

Definition NL : char16 := 10%N.

Module Str.

Fixpoint eqb (a b : jsstring) : bool :=
  match a, b with
  | [], [] => true
  | x :: a', y :: b' => N.eqb x y && eqb a' b'
  | _, _ => false
  end.

(** [s.startsWith(p)] *)
Fixpoint startsWith (p s : jsstring) : bool :=
  match p, s with
  | [], _ => true
  | x :: p', y :: s' => N.eqb x y && startsWith p' s'
  | _ :: _, [] => false
  end.

(** [s.includes(p)] *)
Fixpoint includes (p s : jsstring) : bool :=
  startsWith p s ||
  match s with
  | [] => false
  | _ :: s' => includes p s'
  end.

(** [s.split(sep)] for a one-character separator: never empty. *)
Fixpoint split (sep : char16) (s : jsstring) : list jsstring :=
  match s with
  | [] => [[]]
  | c :: t =>
      if N.eqb c sep then [] :: split sep t
      else match split sep t with
           | [] => [[c]]
           | l :: ls => (c :: l) :: ls
           end
  end.

(** [parts.join(sep)] *)
Fixpoint join (sep : jsstring) (parts : list jsstring) : jsstring :=
  match parts with
  | [] => []
  | [p] => p
  | p :: ps => p ++ sep ++ join sep ps
  end.

(** [s.substring(0, n)] for [0 <= n]. *)
Definition prefix (n : nat) (s : jsstring) : jsstring := firstn n s.

(** WhiteSpace and LineTerminator of ECMAScript: what [trim], [trimStart]
    and the class [\s] of regular expressions recognise. *)
Definition isLineTerminator (c : char16) : bool :=
  (N.eqb c 10 || N.eqb c 13 || N.eqb c 8232 || N.eqb c 8233)%N.

Definition isSpace (c : char16) : bool :=
  (isLineTerminator c
   || N.eqb c 9 || N.eqb c 11 || N.eqb c 12 || N.eqb c 32 || N.eqb c 160
   || N.eqb c 5760 || (N.leb 8192 c && N.leb c 8202)
   || N.eqb c 8239 || N.eqb c 8287 || N.eqb c 12288 || N.eqb c 65279)%N.

Fixpoint trimStart (s : jsstring) : jsstring :=
  match s with
  | c :: t => if isSpace c then trimStart t else s
  | [] => []
  end.

Definition trimEnd (s : jsstring) : jsstring := rev (trimStart (rev s)).

Definition trim (s : jsstring) : jsstring := trimEnd (trimStart s).

(** [s.replace(new RegExp(q, 'g'), '')] for a pattern [q] without
    metacharacters: every occurrence, left to right, not overlapping. *)
Fixpoint removeAll_from (q : jsstring) (skip : nat) (s : jsstring) : jsstring :=
  match s with
  | [] => []
  | c :: t =>
      match skip with
      | S k => removeAll_from q k t
      | O =>
          if startsWith q s
          then removeAll_from q (length q - 1) t
          else c :: removeAll_from q 0 t
      end
  end.

Definition removeAll (q s : jsstring) : jsstring :=
  match q with
  | [] => s
  | _ :: _ => removeAll_from q 0 s
  end.

End Str.

(** ** Regular expressions

    The fragment of ECMAScript regular expressions used by the parser, with
    the backtracking order of the language: [Or] tries its left branch first,
    a greedy [Star] tries one more iteration before leaving, a lazy one
    leaves first, and an iteration that consumes nothing is rejected.  The
    matcher is written in continuation-passing style: [run r st k] matches
    [r] at [st] and hands every candidate end state to [k], in priority
    order, until [k] accepts one. *)
Module Re.

Inductive regex : Type :=
| Eps
| Chr (p : char16 -> bool)
| Cat (r1 r2 : regex)
| Or (r1 r2 : regex)
| Star (greedy : bool) (r : regex)
| Opt (r : regex)
| Cap (n : nat) (r : regex)
| Bol     (* ^ under the m flag *)
| Eoi.    (* $ without the m flag *)

Record state : Type := mkState {
  pos : nat;                       (* index of the next character *)
  prev : option char16;            (* the character before it *)
  rest : jsstring;                 (* the input from [pos] on *)
  caps : list (nat * jsstring)     (* captures, most recent first *)
}.

Fixpoint get (n : nat) (cs : list (nat * jsstring)) : option jsstring :=
  match cs with
  | [] => None
  | (m, w) :: t => if Nat.eqb n m then Some w else get n t
  end.

Definition capture (n : nat) (w : jsstring) (st : state) : state :=
  mkState (pos st) (prev st) (rest st) ((n, w) :: caps st).

Definition orelse {A : Type} (a b : option A) : option A :=
  match a with
  | Some _ => a
  | None => b
  end.

Definition atLineStart (pv : option char16) : bool :=
  match pv with
  | None => true
  | Some c => Str.isLineTerminator c
  end.

Fixpoint run (r : regex) (st : state) (k : state -> option state)
  {struct r} : option state :=
  match r with
  | Eps => k st
  | Chr p =>
      match rest st with
      | c :: t => if p c then k (mkState (S (pos st)) (Some c) t (caps st))
                  else None
      | [] => None
      end
  | Cat r1 r2 => run r1 st (fun st1 => run r2 st1 k)
  | Or r1 r2 => orelse (run r1 st k) (run r2 st k)
  | Star g r1 =>
      (fix loop (n : nat) (s : state) {struct n} : option state :=
         match n with
         | O => k s
         | S n' =>
             let again :=
               run r1 s (fun s' => if pos s <? pos s' then loop n' s'
                                   else None) in
             if g then orelse again (k s) else orelse (k s) again
         end) (length (rest st)) st
  | Opt r1 =>
      orelse (run r1 st (fun s' => if pos st <? pos s' then k s' else None))
             (k st)
  | Cap n r1 =>
      run r1 st
          (fun s' => k (capture n (firstn (pos s' - pos st) (rest st)) s'))
  | Bol => if atLineStart (prev st) then k st else None
  | Eoi => match rest st with
           | [] => k st
           | _ :: _ => None
           end
  end.

(** What [exec] returns: [index], the end of the match (the next
    [lastIndex] of a global pattern), [m[0]] and the groups. *)
Record rmatch : Type := mkMatch {
  index : nat;
  stop : nat;
  whole : jsstring;
  groups : list (nat * jsstring)
}.

Definition group (n : nat) (m : rmatch) : option jsstring := get n (groups m).

Definition matchAt (r : regex) (i : nat) (pv : option char16) (s : jsstring)
  : option rmatch :=
  match run r (mkState i pv s []) (fun st => Some st) with
  | Some st => Some (mkMatch i (pos st) (firstn (pos st - i) s) (caps st))
  | None => None
  end.

(** The leftmost position, from [i] on, at which the pattern matches. *)
Fixpoint searchFrom (r : regex) (i : nat) (pv : option char16) (s : jsstring)
  : option rmatch :=
  match matchAt r i pv s with
  | Some m => Some m
  | None =>
      match s with
      | [] => None
      | c :: t => searchFrom r (S i) (Some c) t
      end
  end.

Definition charBefore (content : jsstring) (i : nat) : option char16 :=
  match i with
  | O => None
  | S j => nth_error content j
  end.

(** [pattern.exec(content)] with [pattern.lastIndex = lastIndex]. *)
Definition exec (r : regex) (content : jsstring) (lastIndex : nat)
  : option rmatch :=
  if length content <? lastIndex then None
  else searchFrom r lastIndex (charBefore content lastIndex)
                  (skipn lastIndex content).

(** [while ((match = pattern.exec(content)) !== null) ...] for a pattern
    with the g flag: the matches in order.  [None] when the fuel runs out,
    which is how a loop that never ends shows. *)
Fixpoint execLoop (fuel : nat) (r : regex) (content : jsstring)
  (lastIndex : nat) : option (list rmatch) :=
  match fuel with
  | O => None
  | S fuel' =>
      match exec r content lastIndex with
      | None => Some []
      | Some m =>
          match execLoop fuel' r content (stop m) with
          | Some ms => Some (m :: ms)
          | None => None
          end
      end
  end.

Definition execAll (r : regex) (content : jsstring) : option (list rmatch) :=
  execLoop (S (S (length content))) r content 0.

(** [s.match(r)] for a pattern without the g flag. *)
Definition matchFirst (r : regex) (s : jsstring) : option rmatch :=
  exec r s 0.

(** *** Pattern syntax *)

Definition chr (c : char16) : regex := Chr (N.eqb c).

Fixpoint lit (s : jsstring) : regex :=
  match s with
  | [] => Eps
  | [c] => chr c
  | c :: t => Cat (chr c) (lit t)
  end.

Definition plus (r : regex) : regex := Cat r (Star true r).

Fixpoint seq (rs : list regex) : regex :=
  match rs with
  | [] => Eps
  | [r] => r
  | r :: t => Cat r (seq t)
  end.

Definition inRange (lo hi : N) (c : char16) : bool :=
  (N.leb lo c && N.leb c hi)%N.

Definition isLower := inRange 97 122.
Definition isUpper := inRange 65 90.
Definition isDigit := inRange 48 57.

(** [[a-zA-Z_]] and [[a-zA-Z0-9_]] *)
Definition isIdentStart (c : char16) : bool :=
  isLower c || isUpper c || N.eqb c 95.
Definition isIdentChar (c : char16) : bool :=
  isLower c || isUpper c || isDigit c || N.eqb c 95.

Definition space : regex := Chr Str.isSpace.                    (* \s *)
Definition anyChar : regex := Chr (fun _ => true).              (* [\s\S] *)
Definition dot : regex := Chr (fun c => negb (Str.isLineTerminator c)).

End Re.

(** ** Arrays of lines *)

(** [arr.slice(a, b)] for [0 <= a] and [0 <= b]. *)
Definition slice {A : Type} (l : list A) (a b : nat) : list A :=
  firstn (b - a) (skipn a l).

(** [content.substring(0, p).split('\n').length]: the 1-based number of the
    line that holds position [p]. *)
Definition lineOf (content : jsstring) (p : nat) : nat :=
  length (Str.split NL (Str.prefix p content)).

(** Lines [a..b] of a file, 1-based and inclusive, read one by one: what the
    data model calls the text spanning [startLine..endLine]. *)
Definition linesBetween (lines : list jsstring) (a b : nat) : list jsstring :=
  map (fun k => nth (k - 1) lines []) (List.seq a (S b - a)).

(** [a || b] on strings that may be undefined: the empty string is falsy. *)
Definition orString (a : option jsstring) (b : option jsstring)
  : option jsstring :=
  match a with
  | Some (_ :: _) => a
  | _ => b
  end.

(** ** The chunk (source/types/codechunk.ts) *)

Inductive Language : Type := python | javascript | typescript | jsx | tsx.

Inductive ChunkType : Type :=
| function | class | method | arrow_function | other.

Record CodeChunk : Type := mkChunk {
  filePath : jsstring;
  language : Language;
  chunkType : ChunkType;
  name : jsstring;
  startLine : nat;
  endLine : nat;
  docString : option jsstring;
  code : jsstring
}.

(** The table SUPPORTED_EXTENSIONS of the class, and the lookup
    [SUPPORTED_EXTENSIONS[extension]] in it. *)
Definition extensionTable : list (jsstring * Language) :=
  [ (u ".py", python);
    (u ".js", javascript);
    (u ".ts", typescript);
    (u ".jsx", jsx);
    (u ".tsx", tsx) ].

Fixpoint lookup (key : jsstring) (table : list (jsstring * Language))
  : option Language :=
  match table with
  | [] => None
  | (k, v) :: more => if Str.eqb key k then Some v else lookup key more
  end.

Definition SUPPORTED_EXTENSIONS (extension : jsstring) : option Language :=
  lookup extension extensionTable.

(** ** Python *)
Module Py.
Import Re.

(** The pattern of _parsePython, flags g and m:
    ^(async\s+def|def|class)\s+([a-zA-Z_][a-zA-Z0-9_]* ) *)
Definition pattern : regex :=
  seq [ Bol;
        Cap 1 (Or (seq [lit (u "async"); plus space; lit (u "def")])
                  (Or (lit (u "def")) (lit (u "class"))));
        plus space;
        Cap 2 (Cat (Chr isIdentStart) (Star true (Chr isIdentChar))) ].

(** [line.length - line.trimStart().length] *)
Definition indentOf (line : jsstring) : nat :=
  length line - length (Str.trimStart line).

(** [line.match(/^\s*/)[0].length] *)
Fixpoint leadingSpaces (line : jsstring) : nat :=
  match line with
  | c :: t => if Str.isSpace c then S (leadingSpaces t) else 0
  | [] => 0
  end.

(** [!line || line.trim() === ''] *)
Definition isBlank (line : jsstring) : bool :=
  match line with
  | [] => true
  | _ :: _ => Str.eqb (Str.trim line) []
  end.

(** _isPythonMethod: the loop that walks back from [startLineIndex - 1] to
    0, over the earlier lines in reverse order. *)
Fixpoint methodLoop (indent : nat) (before : list jsstring) : bool :=
  match before with
  | [] => false
  | prevLine :: earlier =>
      let prevIndent := indentOf prevLine in
      if Str.startsWith (u "class ") (Str.trim prevLine)
         && (prevIndent <? indent)
      then true
      else if prevIndent <? indent then false
      else methodLoop indent earlier
  end.

Definition _isPythonMethod (lines : list jsstring) (startLineIndex : nat)
  : bool :=
  if Nat.eqb startLineIndex 0 then false
  else
    let line := nth startLineIndex lines [] in
    let indent := indentOf line in
    if Nat.eqb indent 0 then false
    else methodLoop indent (rev (firstn startLineIndex lines)).

(** _findPythonBlockEnd: the loop looking for the line that holds
    [quoteChar], from index [i] on. *)
Fixpoint docEndLoop (quoteChar : jsstring) (i : nat) (ls : list jsstring)
  : option nat :=
  match ls with
  | [] => None
  | line :: t =>
      if Str.includes quoteChar line then Some i
      else docEndLoop quoteChar (S i) t
  end.

(** The two docstring markers: three double quotes, three single quotes. *)
Definition tripleDouble : jsstring := [34; 34; 34]%N.
Definition tripleSingle : jsstring := [39; 39; 39]%N.

Definition docstringOf (lines : list jsstring) (startLineIndex : nat)
  : option jsstring :=
  let firstLineAfterDef :=
    match nth_error lines (startLineIndex + 1) with
    | Some l => Str.trim l
    | None => []
    end in
  if Str.startsWith tripleDouble firstLineAfterDef
     || Str.startsWith tripleSingle firstLineAfterDef
  then
    let quoteChar := firstn 3 firstLineAfterDef in
    match docEndLoop quoteChar (startLineIndex + 1)
                     (skipn (startLineIndex + 1) lines) with
    | Some docstringEndLine =>
        Some (Str.trim
                (Str.removeAll quoteChar
                   (Str.join [NL]
                      (slice lines (startLineIndex + 1)
                             (docstringEndLine + 1)))))
    | None => None
    end
  else None.

(** _findPythonBlockEnd: the loop that moves [endLine], from index [i]. *)
Fixpoint blockLoop (initialIndent : nat) (i : nat) (ls : list jsstring)
  (endLine : nat) : nat :=
  match ls with
  | [] => endLine
  | line :: t =>
      if isBlank line then blockLoop initialIndent (S i) t endLine
      else if indentOf line <=? initialIndent then endLine
      else blockLoop initialIndent (S i) t (S i)
  end.

Record blockEnd : Type := mkBlockEnd {
  be_endLine : nat;
  be_blockCode : jsstring;
  be_docstring : option jsstring
}.

Definition _findPythonBlockEnd (lines : list jsstring) (startLine : nat)
  : blockEnd :=
  let startLineIndex := startLine - 1 in
  let initialIndent :=
    match nth_error lines startLineIndex with
    | Some l => leadingSpaces l
    | None => 0
    end in
  let docstring := docstringOf lines startLineIndex in
  let endLine :=
    blockLoop initialIndent (startLineIndex + 1)
              (skipn (startLineIndex + 1) lines) startLine in
  let blockCode := Str.join [NL] (slice lines startLineIndex endLine) in
  mkBlockEnd endLine blockCode docstring.

(** The body of the [while] loop of _parsePython, for one match. *)
Definition chunkOf (content : jsstring) (lines : list jsstring)
  (path : jsstring) (m : rmatch) : CodeChunk :=
  let typeKeyword := group 1 m in
  let name :=
    match orString (group 2 m) (Some (u "unknown")) with
    | Some w => w
    | None => []
    end in
  let startLine := lineOf content (index m) in
  let b := _findPythonBlockEnd lines startLine in
  let isMethod := _isPythonMethod lines (startLine - 1) in
  let chunkType :=
    match typeKeyword with
    | Some kw =>
        if Str.eqb kw (u "class") then class
        else if isMethod then method else function
    | None => if isMethod then method else function
    end in
  mkChunk path python chunkType name startLine (be_endLine b)
          (be_docstring b) (be_blockCode b).

Definition _parsePython (content path : jsstring) : option (list CodeChunk) :=
  let lines := Str.split NL content in
  match execAll pattern content with
  | Some ms => Some (map (chunkOf content lines path) ms)
  | None => None
  end.

End Py.

(** ** JavaScript and TypeScript *)
Module Js.
Import Re.

(** The first alternative of the pattern of _parseJavaScriptTypeScript:
    (?:\/\*\*[\s\S]*?\*\/[\s\n]* )?(?:export\s+)?(async\s+)?
    (function\*?|class)\s+([a-zA-Z0-9_]+) *)
Definition declaration : regex :=
  seq [ Opt (seq [ lit (u "/**"); Star false anyChar; lit (u "*/");
                   Star true (Chr (fun c => Str.isSpace c || N.eqb c 10%N)) ]);
        Opt (seq [lit (u "export"); plus space]);
        Opt (Cap 1 (seq [lit (u "async"); plus space]));
        Cap 2 (Or (seq [lit (u "function"); Opt (chr 42%N)]) (lit (u "class")));
        plus space;
        Cap 3 (plus (Chr isIdentChar)) ].

(** The second alternative:
    (?:export\s+)?(const|let|var)\s+([a-zA-Z0-9_]+)\s*=\s*(?:async)?\s*
    \(.*?\)\s*=> *)
Definition arrow : regex :=
  seq [ Opt (seq [lit (u "export"); plus space]);
        Cap 4 (Or (lit (u "const")) (Or (lit (u "let")) (lit (u "var"))));
        plus space;
        Cap 5 (plus (Chr isIdentChar));
        Star true space; chr 61%N; Star true space;
        Opt (lit (u "async"));
        Star true space;
        chr 40%N; Star false dot; chr 41%N;
        Star true space;
        lit (u "=>") ].

(** The whole pattern, flag g. *)
Definition pattern : regex := Or declaration arrow.

(** [/\/\*\*([\s\S]*?)\*\/$/], the pattern of the documentation block. *)
Definition docPattern : regex :=
  seq [ lit (u "/**"); Cap 1 (Star false anyChar); lit (u "*/"); Eoi ].

(** [line.trim().replace(/^\* ?/, '')] *)
Definition destar (line : jsstring) : jsstring :=
  match Str.trim line with
  | 42%N :: 32%N :: t => t
  | 42%N :: t => t
  | l => l
  end.

Definition docstringOf (content : jsstring) (startPos : nat)
  : option jsstring :=
  match matchFirst docPattern (Str.prefix startPos content) with
  | Some docMatch =>
      match group 1 docMatch with
      | Some inner =>
          Some (Str.trim (Str.join [NL] (map destar (Str.split NL inner))))
      | None => None
      end
  | None => None
  end.

(** The scanner state of _findJSBlockEnd. *)
Record scan : Type := mkScan {
  openBraces : Z;
  inString : option char16;      (* false, or the opening quote *)
  escape : bool;
  firstBraceFound : bool
}.

Definition scanStart : scan := mkScan 0 None false false.

Definition isQuote (c : char16) : bool :=
  (N.eqb c 34 || N.eqb c 39 || N.eqb c 96)%N.

(** One turn of the [for] loop, up to the test on the braces. *)
Definition step (st : scan) (char : char16) : scan :=
  match inString st with
  | Some q =>
      if N.eqb char q && negb (escape st)
      then mkScan (openBraces st) None (escape st) (firstBraceFound st)
      else mkScan (openBraces st) (Some q)
                  (N.eqb char 92%N && negb (escape st)) (firstBraceFound st)
  | None =>
      if isQuote char
      then mkScan (openBraces st) (Some char) false (firstBraceFound st)
      else if N.eqb char 123%N
      then mkScan (openBraces st + 1) None (escape st) true
      else if N.eqb char 125%N
      then mkScan (openBraces st - 1) None (escape st) (firstBraceFound st)
      else st
  end.

Definition closed (st : scan) : bool :=
  firstBraceFound st && Z.eqb (openBraces st) 0.

(** The [for] loop from index [i]: the index at which it returns. *)
Fixpoint scanLoop (st : scan) (i : nat) (s : jsstring) : option nat :=
  match s with
  | [] => None
  | char :: t =>
      let st' := step st char in
      if closed st' then Some i else scanLoop st' (S i) t
  end.

(** [while (i < content.length && content[i] !== '{') i++], from [i]. *)
Fixpoint skipToBrace (i : nat) (s : jsstring) : nat :=
  match s with
  | [] => i
  | c :: t => if N.eqb c 123%N then i else skipToBrace (S i) t
  end.

Record blockEnd : Type := mkBlockEnd {
  be_endLine : nat;
  be_blockCode : jsstring;
  be_docstring : option jsstring
}.

Definition _findJSBlockEnd (content : jsstring) (startPos : nat)
  (lines : list jsstring) : blockEnd :=
  let docstring := docstringOf content startPos in
  let i := skipToBrace startPos (skipn startPos content) in
  let codeBlockStartLineIndex :=
    if i <? length content then lineOf content i - 1
    else lineOf content startPos - 1 in
  match scanLoop scanStart i (skipn i content) with
  | Some j =>
      let endLine := lineOf content (j + 1) in
      mkBlockEnd endLine
        (Str.join [NL] (slice lines codeBlockStartLineIndex endLine))
        docstring
  | None =>
      mkBlockEnd (length lines)
        (Str.join [NL] (skipn codeBlockStartLineIndex lines))
        docstring
  end.

(** The body of the [while] loop of _parseJavaScriptTypeScript. *)
Definition chunkOf (content : jsstring) (lines : list jsstring)
  (path : jsstring) (lang : Language) (m : rmatch) : CodeChunk :=
  let startPos := index m in
  let startLine := lineOf content startPos in
  let b := _findJSBlockEnd content startPos lines in
  let name :=
    match orString (group 3 m)
                   (orString (group 5 m) (Some (u "unknown"))) with
    | Some w => w
    | None => []
    end in
  let chunkType :=
    match group 2 m with
    | Some kw =>
        if Str.eqb kw (u "class") then class
        else if Str.includes (u "function") kw then function
        else if Str.includes (u "=>") (whole m) then arrow_function
        else other
    | None =>
        if Str.includes (u "=>") (whole m) then arrow_function else other
    end in
  mkChunk path lang chunkType name startLine (be_endLine b)
          (be_docstring b) (be_blockCode b).

Definition _parseJavaScriptTypeScript (content path : jsstring)
  (lang : Language) : option (list CodeChunk) :=
  let lines := Str.split NL content in
  match execAll pattern content with
  | Some ms => Some (map (chunkOf content lines path lang) ms)
  | None => None
  end.

End Js.

(** ** Paths (Node's path module, POSIX flavour) *)
Module Path.

(** The variables of the loop of [path.extname]; [None] stands for -1. *)
Record ext : Type := mkExt {
  startDot : option nat;
  startPart : nat;
  endPos : option nat;
  matchedSlash : bool;
  preDotState : Z
}.

(** The loop runs from the last character to the first: [rv] is the path
    reversed, and the index of its head is the length of its tail. *)
Fixpoint extLoop (rv : jsstring) (st : ext) : ext :=
  match rv with
  | [] => st
  | code :: t =>
      let i := length t in
      if N.eqb code 47 then
        if negb (matchedSlash st)
        then mkExt (startDot st) (i + 1) (endPos st) (matchedSlash st)
                   (preDotState st)
        else extLoop t st
      else
        let st1 :=
          match endPos st with
          | None => mkExt (startDot st) (startPart st) (Some (i + 1)) false
                          (preDotState st)
          | Some _ => st
          end in
        let st2 :=
          if N.eqb code 46 then
            match startDot st1 with
            | None => mkExt (Some i) (startPart st1) (endPos st1)
                            (matchedSlash st1) (preDotState st1)
            | Some _ => mkExt (startDot st1) (startPart st1) (endPos st1)
                              (matchedSlash st1) 1
            end
          else
            match startDot st1 with
            | Some _ => mkExt (startDot st1) (startPart st1) (endPos st1)
                              (matchedSlash st1) (-1)
            | None => st1
            end in
        extLoop t st2
  end.

Definition extname (path : jsstring) : jsstring :=
  let st := extLoop (rev path) (mkExt None 0 None true 0) in
  match startDot st, endPos st with
  | Some d, Some e =>
      if Z.eqb (preDotState st) 0
         || (Z.eqb (preDotState st) 1 && Nat.eqb d (e - 1)
             && Nat.eqb d (startPart st + 1))
      then []
      else slice path d e
  | _, _ => []
  end.

(** [path.join(dirPath, file)] for a directory path and an entry name that
    need no normalisation. *)
Definition join (dirPath file : jsstring) : jsstring :=
  dirPath ++ u "/" ++ file.

End Path.

(** ** The directory parser *)

(** How a promise of the source ends: resolved, rejected with an error, or
    never settled. *)
Inductive outcome (A : Type) : Type :=
| Resolved (value : A)
| Rejected (error : jsstring)
| Pending.

Arguments Resolved {A} value.
Arguments Rejected {A} error.
Arguments Pending {A}.

(** What lies under a path: a file, with what [readFile] gives for it (its
    text, or the reason of the failure); a directory with its entries in
    listing order; or an entry on which [stat] or [readdir] fails. *)
Inductive fsnode : Type :=
| File (data : jsstring + jsstring)
| Dir (listing : list (jsstring * fsnode))
| Broken (cause : jsstring).

Definition fileEntry : Type := (jsstring * (jsstring + jsstring))%type.

(** getAllFiles: [readdir] fails on what is not a directory. *)
Fixpoint getAllFiles (dirPath : jsstring) (n : fsnode)
  (arrayOfFiles : list fileEntry) {struct n} : outcome (list fileEntry) :=
  match n with
  | Dir listing =>
      (fix each (es : list (jsstring * fsnode)) (acc : list fileEntry)
         {struct es} : outcome (list fileEntry) :=
         match es with
         | [] => Resolved acc
         | (file, child) :: t =>
             let fullPath := Path.join dirPath file in
             match child with
             | Broken cause => Rejected cause
             | File data => each t (acc ++ [(fullPath, data)])
             | Dir _ =>
                 match getAllFiles fullPath child acc with
                 | Resolved acc' => each t acc'
                 | Rejected e => Rejected e
                 | Pending => Pending
                 end
             end
         end) listing arrayOfFiles
  | File _ => Rejected (u "ENOTDIR: not a directory")
  | Broken cause => Rejected cause
  end.

(** The message of the error thrown from the [catch] of parseDirectory. *)
Definition readError (filePath cause : jsstring) : jsstring :=
  u "Failed to read or parse file " ++ filePath ++ u ": " ++ cause.

(** The extractor chosen for a language. *)
Definition parseFile (lang : Language) (content filePath : jsstring)
  : option (list CodeChunk) :=
  match lang with
  | python => Py._parsePython content filePath
  | _ => Js._parseJavaScriptTypeScript content filePath lang
  end.

(** The [for] loop of parseDirectory. *)
Fixpoint parseFiles (files : list fileEntry) (allChunks : list CodeChunk)
  : outcome (list CodeChunk) :=
  match files with
  | [] => Resolved allChunks
  | (filePath, data) :: more =>
      match SUPPORTED_EXTENSIONS (Path.extname filePath) with
      | Some lang =>
          match data with
          | inl content =>
              match parseFile lang content filePath with
              | Some chunks => parseFiles more (allChunks ++ chunks)
              | None => Pending
              end
          | inr cause => Rejected (readError filePath cause)
          end
      | None => parseFiles more allChunks
      end
  end.

Definition parseDirectory (directory : jsstring) (root : fsnode)
  : outcome (list CodeChunk) :=
  match getAllFiles directory root [] with
  | Resolved files => parseFiles files []
  | Rejected e => Rejected e
  | Pending => Pending
  end.

(** * Properties *)

(** ** Lines and positions *)
Module StrFacts.
Import Str.

Lemma split_cons_length (sep c : char16) (t : jsstring) :
  length (split sep (c :: t)) =
  if N.eqb c sep then S (length (split sep t)) else length (split sep t).
Proof.
  simpl. destruct (N.eqb c sep); [reflexivity|].
  destruct (split sep t) eqn:E; [|reflexivity].
  destruct t; simpl in E; [discriminate|].
  destruct (N.eqb c0 sep); [discriminate|].
  destruct (split sep t); discriminate.
Qed.

Lemma split_length_pos (sep : char16) (s : jsstring) :
  1 <= length (split sep s).
Proof.
  induction s as [|c t IH]; [simpl; lia|].
  rewrite split_cons_length. destruct (N.eqb c sep); lia.
Qed.

Lemma split_app_length (sep : char16) (a b : jsstring) :
  length (split sep (a ++ b)) + 1 =
  length (split sep a) + length (split sep b).
Proof.
  induction a as [|c t IH].
  - simpl. lia.
  - rewrite <- app_comm_cons, !split_cons_length.
    destruct (N.eqb c sep); lia.
Qed.

Lemma join_cons (sep p : jsstring) (ps : list jsstring) :
  ps <> [] -> join sep (p :: ps) = p ++ sep ++ join sep ps.
Proof. destruct ps; [congruence|reflexivity]. Qed.

Lemma join_split (sep : char16) (s : jsstring) :
  join [sep] (split sep s) = s.
Proof.
  induction s as [|c t IH]; [reflexivity|].
  pose proof (split_length_pos sep t) as Hp.
  simpl split. destruct (N.eqb c sep) eqn:E.
  - apply N.eqb_eq in E. subst c.
    rewrite join_cons by (destruct (split sep t); simpl in *; [lia|congruence]).
    simpl. now rewrite IH.
  - destruct (split sep t) as [|l ls] eqn:Es; [simpl in Hp; lia|].
    destruct ls as [|l' ls'].
    + simpl in *. now rewrite IH.
    + rewrite join_cons by congruence. rewrite join_cons in IH by congruence.
      simpl. now rewrite <- IH.
Qed.

Lemma join_app (sep : jsstring) (a b : list jsstring) :
  a <> [] -> b <> [] ->
  join sep (a ++ b) = join sep a ++ sep ++ join sep b.
Proof.
  induction a as [|p a IH]; [congruence|]. intros _ Hb.
  destruct a as [|p' a'].
  - simpl app. now rewrite join_cons.
  - rewrite <- app_comm_cons.
    rewrite join_cons by (simpl; congruence).
    rewrite IH by congruence.
    rewrite (join_cons sep p) by congruence.
    now rewrite <- !app_assoc.
Qed.

(** The text of the lines from index [k] on ends the file. *)
Lemma join_skipn_suffix (sep : char16) (s : jsstring) (k : nat) :
  exists before, s = before ++ join [sep] (skipn k (split sep s)).
Proof.
  destruct (skipn k (split sep s)) as [|x xs] eqn:Es.
  - exists s. simpl. now rewrite app_nil_r.
  - destruct k as [|k].
    + exists []. simpl in Es. rewrite <- Es. now rewrite join_split.
    + pose proof (firstn_skipn (S k) (split sep s)) as Hfs.
      assert (Hne : firstn (S k) (split sep s) <> []).
      { destruct (split sep s); simpl in *; [discriminate|congruence]. }
      exists (join [sep] (firstn (S k) (split sep s)) ++ [sep]).
      rewrite <- (join_split sep s) at 1. rewrite <- Hfs at 1.
      rewrite join_app; [|assumption|rewrite Es; congruence].
      rewrite Es. now rewrite <- app_assoc.
Qed.

Lemma firstn_plus {A : Type} (p k : nat) (l : list A) :
  firstn (p + k) l = firstn p l ++ firstn k (skipn p l).
Proof.
  revert l. induction p as [|p IH]; intros l; [reflexivity|].
  destruct l as [|x l]; simpl.
  - now rewrite firstn_nil.
  - now rewrite IH.
Qed.

Lemma lineOf_pos (content : jsstring) (p : nat) : 1 <= lineOf content p.
Proof. apply split_length_pos. Qed.

Lemma lineOf_mono (content : jsstring) (p q : nat) :
  p <= q -> lineOf content p <= lineOf content q.
Proof.
  intros Hpq. unfold lineOf, prefix.
  replace q with (p + (q - p)) by lia.
  rewrite firstn_plus.
  pose proof (split_app_length NL (firstn p content)
                (firstn (q - p) (skipn p content))) as H.
  pose proof (split_length_pos NL (firstn (q - p) (skipn p content))).
  lia.
Qed.

Lemma lineOf_le_lines (content : jsstring) (p : nat) :
  lineOf content p <= length (split NL content).
Proof.
  unfold lineOf, prefix.
  rewrite <- (firstn_skipn p content) at 2.
  pose proof (split_app_length NL (firstn p content) (skipn p content)) as H.
  pose proof (split_length_pos NL (skipn p content)). lia.
Qed.

Lemma nth_map_seq {A : Type} (f : nat -> A) (d : A) (len a n : nat) :
  n < len -> nth n (map f (List.seq a len)) d = f (a + n).
Proof.
  revert a n. induction len as [|len IH]; intros a n Hn; [lia|].
  destruct n as [|n]; simpl.
  - f_equal. lia.
  - rewrite IH by lia. f_equal. lia.
Qed.

(** [slice] yields the lines [a..b] of the data model. *)
Lemma slice_linesBetween (lines : list jsstring) (a b : nat) :
  1 <= a -> a <= b -> b <= length lines ->
  slice lines (a - 1) b = linesBetween lines a b.
Proof.
  intros Ha Hab Hb. unfold slice, linesBetween.
  apply nth_ext with (d := []) (d' := []).
  - rewrite length_map, length_seq, length_firstn, length_skipn. lia.
  - intros n Hn.
    rewrite length_firstn, length_skipn in Hn.
    rewrite nth_firstn.
    replace (n <? b - (a - 1)) with true by (symmetry; apply Nat.ltb_lt; lia).
    rewrite nth_skipn.
    rewrite nth_map_seq by lia.
    f_equal. lia.
Qed.

End StrFacts.

(** ** What a match of the matcher is

    [Sem r a b]: read from state [a], the pattern [r] can end in state [b].
    The matcher only ever accepts such end states ([run_sound]); the facts
    about the matches of the source's patterns are derived from [Sem]. *)
Module ReFacts.
Import Re.

Inductive Sem : regex -> state -> state -> Prop :=
| SemEps a : Sem Eps a a
| SemChr p a c t :
    rest a = c :: t -> p c = true ->
    Sem (Chr p) a (mkState (S (pos a)) (Some c) t (caps a))
| SemCat r1 r2 a b c : Sem r1 a b -> Sem r2 b c -> Sem (Cat r1 r2) a c
| SemOrL r1 r2 a b : Sem r1 a b -> Sem (Or r1 r2) a b
| SemOrR r1 r2 a b : Sem r2 a b -> Sem (Or r1 r2) a b
| SemStarStop g r a : Sem (Star g r) a a
| SemStarMore g r a b c :
    Sem r a b -> pos a < pos b -> Sem (Star g r) b c -> Sem (Star g r) a c
| SemOptSkip r a : Sem (Opt r) a a
| SemOptTake r a b : Sem r a b -> Sem (Opt r) a b
| SemCap n r a b :
    Sem r a b ->
    Sem (Cap n r) a (capture n (firstn (pos b - pos a) (rest a)) b)
| SemBol a : atLineStart (prev a) = true -> Sem Bol a a
| SemEoi a : rest a = [] -> Sem Eoi a a.

#[local] Hint Constructors Sem : core.

Lemma orelse_Some {A : Type} (x y : option A) (v : A) :
  orelse x y = Some v -> x = Some v \/ (x = None /\ y = Some v).
Proof. destruct x; simpl; intros H; [left|right]; auto. Qed.

Lemma run_sound (r : regex) :
  forall st k res,
    run r st k = Some res -> exists st', Sem r st st' /\ k st' = Some res.
Proof.
  induction r as [|p|r1 IH1 r2 IH2|r1 IH1 r2 IH2|g r IH|r IH|n r IH| |];
    intros st k res H; simpl in H.
  - eauto.
  - destruct (rest st) as [|c t] eqn:Er; [discriminate|].
    destruct (p c) eqn:Ep; [|discriminate]. eauto.
  - apply IH1 in H. destruct H as (st1 & S1 & H).
    apply IH2 in H. destruct H as (st2 & S2 & H). eauto.
  - apply orelse_Some in H. destruct H as [H|[_ H]].
    + apply IH1 in H. destruct H as (st' & S1 & H). eauto.
    + apply IH2 in H. destruct H as (st' & S2 & H). eauto.
  - remember (length (rest st)) as n eqn:En. clear En. revert st H.
    induction n as [|n IHn]; intros s H.
    + eauto.
    + assert (Hagain :
        run r s (fun s' => if pos s <? pos s'
                           then (fix loop (n : nat) (s : state) {struct n}
                                   : option state :=
                                   match n with
                                   | O => k s
                                   | S n' =>
                                       let again :=
                                         run r s (fun s' =>
                                           if pos s <? pos s'
                                           then loop n' s' else None) in
                                       if g then orelse again (k s)
                                       else orelse (k s) again
                                   end) n s'
                           else None) = Some res ->
        exists st', Sem (Star g r) s st' /\ k st' = Some res).
      { intros Ha. apply IH in Ha. destruct Ha as (s' & S1 & Ha).
        destruct (pos s <? pos s') eqn:Elt; [|discriminate].
        apply Nat.ltb_lt in Elt.
        apply IHn in Ha. destruct Ha as (st' & S2 & Ha). eauto. }
      destruct g; apply orelse_Some in H; destruct H as [H|[_ H]]; eauto.
  - apply orelse_Some in H. destruct H as [H|[_ H]]; [|eauto].
    apply IH in H. destruct H as (s' & S1 & H).
    destruct (pos st <? pos s'); [|discriminate]. eauto.
  - apply IH in H. destruct H as (s' & S1 & H). eauto.
  - destruct (atLineStart (prev st)) eqn:E; [|discriminate]. eauto.
  - destruct (rest st) eqn:E; [|discriminate]. eauto.
Qed.

(** A match consumes a prefix of the remaining input. *)
Lemma Sem_consumes r a b :
  Sem r a b ->
  exists w, rest a = w ++ rest b /\ pos b = pos a + length w.
Proof.
  induction 1 as [a|p a c t Hr Hp|r1 r2 a b c _ IH1 _ IH2|r1 r2 a b _ IH
                 |r1 r2 a b _ IH|g r a|g r a b c _ IH1 _ _ IH2|r a
                 |r a b _ IH|n r a b _ IH|a _|a _];
    try (exists []; simpl; split; [reflexivity|lia]);
    try assumption.
  - exists [c]. simpl. split; [assumption|lia].
  - destruct IH1 as (w1 & E1 & P1), IH2 as (w2 & E2 & P2).
    exists (w1 ++ w2). rewrite E1, E2, <- app_assoc, length_app.
    split; [reflexivity|lia].
  - destruct IH1 as (w1 & E1 & P1), IH2 as (w2 & E2 & P2).
    exists (w1 ++ w2). rewrite E1, E2, <- app_assoc, length_app.
    split; [reflexivity|lia].
Qed.

Lemma Sem_pos_le r a b : Sem r a b -> pos a <= pos b.
Proof. intros H. apply Sem_consumes in H. destruct H as (w & _ & P). lia. Qed.

(** The text a match has consumed. *)
Definition consumed (a b : state) : jsstring :=
  firstn (pos b - pos a) (rest a).

Lemma Sem_consumed r a b :
  Sem r a b ->
  rest a = consumed a b ++ rest b /\ pos b = pos a + length (consumed a b).
Proof.
  intros H. apply Sem_consumes in H. destruct H as (w & E & P).
  unfold consumed. rewrite E, P.
  replace (pos a + length w - pos a) with (length w + 0) by lia.
  rewrite firstn_app_2. simpl. rewrite app_nil_r. auto.
Qed.

(** The least number of characters a pattern consumes. *)
Fixpoint minLen (r : regex) : nat :=
  match r with
  | Chr _ => 1
  | Cat r1 r2 => minLen r1 + minLen r2
  | Or r1 r2 => Nat.min (minLen r1) (minLen r2)
  | Cap _ r1 => minLen r1
  | Eps | Star _ _ | Opt _ | Bol | Eoi => 0
  end.

Lemma Sem_minLen r a b : Sem r a b -> pos a + minLen r <= pos b.
Proof.
  induction 1; simpl in *; try lia.
Qed.

(** Patterns without groups leave the captures alone. *)
Fixpoint noCap (r : regex) : bool :=
  match r with
  | Cap _ _ => false
  | Cat r1 r2 | Or r1 r2 => noCap r1 && noCap r2
  | Star _ r1 | Opt r1 => noCap r1
  | Eps | Chr _ | Bol | Eoi => true
  end.

Lemma Sem_noCap r a b : Sem r a b -> noCap r = true -> caps b = caps a.
Proof.
  induction 1; simpl; intros Hn; try reflexivity;
    try (apply andb_prop in Hn; destruct Hn); try discriminate;
    try congruence; auto.
  - rewrite IHSem2, IHSem1 by assumption. reflexivity.
  - rewrite IHSem2, IHSem1 by assumption. reflexivity.
Qed.

(** *** The matches [exec] returns *)

Definition startState (content : jsstring) (i : nat) : state :=
  mkState i (charBefore content i) (skipn i content) [].

Definition matchOf (r : regex) (content : jsstring) (m : rmatch) : Prop :=
  index m <= length content /\
  exists st',
    Sem r (startState content (index m)) st' /\
    stop m = pos st' /\
    groups m = caps st' /\
    whole m = firstn (pos st' - index m) (skipn (index m) content).

Lemma searchFrom_Some r :
  forall s i pv m,
    searchFrom r i pv s = Some m ->
    exists j,
      j <= length s /\
      matchAt r (i + j) (match j with O => pv | S j' => nth_error s j' end)
              (skipn j s) = Some m.
Proof.
  induction s as [|c t IH]; intros i pv m H; simpl in H.
  - destruct (matchAt r i pv []) eqn:E; [|discriminate].
    exists 0. rewrite Nat.add_0_r. simpl. split; [lia|congruence].
  - destruct (matchAt r i pv (c :: t)) eqn:E.
    + exists 0. rewrite Nat.add_0_r. simpl. split; [lia|congruence].
    + apply IH in H. destruct H as (j & Hj & H).
      exists (S j). simpl. split; [lia|].
      replace (i + S j) with (S i + j) by lia.
      destruct j; simpl in *; assumption.
Qed.

Lemma exec_matchOf r content lastIndex m :
  exec r content lastIndex = Some m ->
  lastIndex <= index m /\ matchOf r content m.
Proof.
  unfold exec. intros H.
  destruct (length content <? lastIndex) eqn:El; [discriminate|].
  apply Nat.ltb_ge in El.
  apply searchFrom_Some in H. destruct H as (j & Hj & H).
  rewrite length_skipn in Hj.
  unfold matchAt in H.
  destruct (run r _ _) as [st'|] eqn:Er; [|discriminate].
  apply run_sound in Er. destruct Er as (st2 & Hsem & Hk).
  injection Hk as <-. injection H as <-. simpl.
  split; [lia|]. unfold matchOf. simpl. split; [lia|].
  exists st2. rewrite skipn_skipn in *.
  replace (j + lastIndex) with (lastIndex + j) in * by lia.
  repeat split; try reflexivity.
  unfold startState.
  replace (charBefore content (lastIndex + j))
    with (match j with
          | O => charBefore content lastIndex
          | S j' => nth_error (skipn lastIndex content) j'
          end); [assumption|].
  destruct j as [|j'].
  - now rewrite Nat.add_0_r.
  - replace (lastIndex + S j') with (S (lastIndex + j')) by lia.
    simpl. apply nth_error_skipn.
Qed.

Lemma matchOf_bounds r content m :
  matchOf r content m ->
  index m + minLen r <= stop m /\ stop m <= length content.
Proof.
  intros (Hi & st' & Hsem & Hs & _ & _).
  pose proof (Sem_minLen Hsem) as Hmin.
  apply Sem_consumes in Hsem. destruct Hsem as (w & E & P).
  simpl in *. rewrite Hs.
  assert (length (skipn (index m) content) = length w + length (rest st'))
    by (rewrite E; apply length_app).
  rewrite length_skipn in *. lia.
Qed.

Lemma execLoop_matches r content :
  forall fuel lastIndex ms,
    execLoop fuel r content lastIndex = Some ms ->
    Forall (matchOf r content) ms.
Proof.
  induction fuel as [|fuel IH]; intros li ms H; simpl in H; [discriminate|].
  destruct (exec r content li) as [m|] eqn:Ee.
  - destruct (execLoop fuel r content (stop m)) as [ms'|] eqn:El;
      [|discriminate].
    injection H as <-. constructor.
    + now apply exec_matchOf in Ee.
    + eapply IH; eassumption.
  - injection H as <-. constructor.
Qed.

(** The loop over the matches of a pattern that cannot match the empty
    string ends: the fuel of [execAll] is never used up. *)
Lemma execLoop_total r content :
  0 < minLen r ->
  forall fuel lastIndex,
    lastIndex <= length content ->
    length content + 1 < fuel + lastIndex ->
    exists ms, execLoop fuel r content lastIndex = Some ms.
Proof.
  intros Hmin. induction fuel as [|fuel IH]; intros li Hli Hf; [lia|].
  simpl. destruct (exec r content li) as [m|] eqn:Ee; [|eauto].
  apply exec_matchOf in Ee. destruct Ee as (Hle & Hm).
  apply matchOf_bounds in Hm. destruct Hm as (Hlo & Hhi).
  destruct (IH (stop m)) as (ms & ->); [lia|lia|]. eauto.
Qed.

Lemma execAll_total r content :
  0 < minLen r -> exists ms, execAll r content = Some ms.
Proof.
  intros Hmin. unfold execAll. apply execLoop_total; [assumption|lia|lia].
Qed.

Lemma execAll_matches r content ms :
  execAll r content = Some ms -> Forall (matchOf r content) ms.
Proof. apply execLoop_matches. Qed.

End ReFacts.

(** ** The identifiers the patterns capture *)
Module PatternFacts.
Import Re ReFacts.

(** [reads a w b]: going from [a] to [b] reads exactly the text [w]. *)
Definition reads (a : state) (w : jsstring) (b : state) : Prop :=
  rest a = w ++ rest b /\ pos b = pos a + length w.

Lemma Sem_reads r a b : Sem r a b -> reads a (consumed a b) b.
Proof. apply Sem_consumed. Qed.

Lemma reads_trans a b c w1 w2 :
  reads a w1 b -> reads b w2 c -> reads a (w1 ++ w2) c.
Proof.
  intros (E1 & P1) (E2 & P2). split.
  - now rewrite E1, E2, app_assoc.
  - rewrite length_app. lia.
Qed.

Lemma reads_consumed a w b : reads a w b -> consumed a b = w.
Proof.
  intros (E & P). unfold consumed. rewrite E, P.
  replace (pos a + length w - pos a) with (length w + 0) by lia.
  rewrite firstn_app_2. simpl. apply app_nil_r.
Qed.

Lemma reads_capture_l n x a w b : reads a w b -> reads (capture n x a) w b.
Proof. exact (fun H => H). Qed.

Lemma reads_capture_r n x a w b : reads a w b -> reads a w (capture n x b).
Proof. exact (fun H => H). Qed.

Lemma Sem_Cat_inv r1 r2 a c :
  Sem (Cat r1 r2) a c -> exists b, Sem r1 a b /\ Sem r2 b c.
Proof. inversion 1; subst; eauto. Qed.

Lemma Sem_Cap_inv n r a c :
  Sem (Cap n r) a c ->
  exists b, Sem r a b /\ c = capture n (consumed a b) b.
Proof. inversion 1; subst; eauto. Qed.

Lemma Sem_Or_inv r1 r2 a b : Sem (Or r1 r2) a b -> Sem r1 a b \/ Sem r2 a b.
Proof. inversion 1; subst; auto. Qed.

Lemma Sem_Chr_inv p a b :
  Sem (Chr p) a b ->
  exists c, rest a = c :: rest b /\ p c = true /\ pos b = S (pos a)
            /\ caps b = caps a /\ prev b = Some c.
Proof. inversion 1; subst; simpl; eauto 7. Qed.

Lemma Sem_Bol_inv a b :
  Sem Bol a b -> b = a /\ atLineStart (prev a) = true.
Proof. inversion 1; subst; auto. Qed.

(** A run of characters of one class. *)
Lemma Sem_Star_Chr g p a b :
  Sem (Star g (Chr p)) a b ->
  exists w, reads a w b /\ Forall (fun c => p c = true) w.
Proof.
  intros H. remember (Star g (Chr p)) as r eqn:Er.
  induction H; try discriminate; injection Er as -> ->.
  - exists []. split; [split; simpl; [reflexivity|lia]|constructor].
  - destruct (IHSem2 eq_refl) as (w & Hr & Hw).
    apply Sem_Chr_inv in H. destruct H as (c0 & E & Hp & P & _).
    exists (c0 :: w). split; [|now constructor].
    destruct Hr as (E2 & P2). split; simpl.
    + now rewrite E, E2.
    + lia.
Qed.

(** One character of the class, then a run of them: [p+], and the
    identifiers of both languages. *)
Lemma Sem_ident p q g a b :
  (forall c, p c = true -> q c = true) ->
  Sem (Cat (Chr p) (Star g (Chr q))) a b ->
  exists w, reads a w b /\ w <> [] /\ Forall (fun c => q c = true) w.
Proof.
  intros Hpq H. apply Sem_Cat_inv in H. destruct H as (x & H1 & H2).
  apply Sem_Chr_inv in H1. destruct H1 as (c & E & Hp & P & _).
  apply Sem_Star_Chr in H2. destruct H2 as (w & (E2 & P2) & Hw).
  exists (c :: w). split; [split; simpl|split].
  - now rewrite E, E2.
  - lia.
  - discriminate.
  - constructor; auto.
Qed.

Lemma isIdentStart_isIdentChar c :
  isIdentStart c = true -> isIdentChar c = true.
Proof.
  unfold isIdentStart, isIdentChar.
  destruct (isLower c), (isUpper c), (isDigit c); simpl; auto.
Qed.

Definition identifier (w : jsstring) : Prop :=
  w <> [] /\ Forall (fun c => isIdentChar c = true) w.

(** Every match of the Python pattern has a second group, an identifier
    that ends the matched text. *)
Lemma python_name content m :
  matchOf Py.pattern content m ->
  exists before w,
    group 2 m = Some w /\ identifier w /\ whole m = before ++ w.
Proof.
  intros (_ & st' & H & _ & Hg & Hw).
  rewrite Hw. clear Hw.
  change (firstn (pos st' - index m) (skipn (index m) content))
    with (consumed (startState content (index m)) st').
  apply Sem_Cat_inv in H. destruct H as (s1 & Hbol & H).
  apply Sem_Bol_inv in Hbol. destruct Hbol as (-> & _).
  apply Sem_Cat_inv in H. destruct H as (s2 & Hkw & H).
  apply Sem_Cat_inv in H. destruct H as (s3 & Hsp & H).
  apply Sem_Cap_inv in H. destruct H as (s4 & Hid & ->).
  pose proof (Sem_ident isIdentStart_isIdentChar Hid) as (w & Hr & Hne & Hc).
  pose proof (reads_trans (reads_trans (Sem_reads Hkw) (Sem_reads Hsp)) Hr)
    as Hrd.
  exists (consumed (startState content (index m)) s2 ++ consumed s2 s3), w.
  split; [|split; [split; assumption|]].
  - unfold group. rewrite Hg. simpl. f_equal. now apply reads_consumed.
  - now apply reads_consumed.
Qed.

Lemma orString_identifier w b : identifier w -> orString (Some w) b = Some w.
Proof. intros (Hne & _). destruct w; [congruence|reflexivity]. Qed.

(** Every match of the JavaScript pattern has a third group (first
    alternative) or, failing that, a fifth one (second alternative): an
    identifier inside the matched text. *)
Lemma javascript_name content m :
  matchOf Js.pattern content m ->
  exists before w after,
    orString (group 3 m) (orString (group 5 m) (Some (u "unknown"))) = Some w
    /\ (group 3 m = Some w \/ (group 3 m = None /\ group 5 m = Some w))
    /\ identifier w
    /\ whole m = before ++ w ++ after.
Proof.
  intros (_ & st' & H & _ & Hg & Hw).
  rewrite Hw. clear Hw.
  change (firstn (pos st' - index m) (skipn (index m) content))
    with (consumed (startState content (index m)) st').
  unfold group. rewrite Hg. clear Hg.
  set (s0 := startState content (index m)) in *.
  assert (Hc0 : caps s0 = []) by reflexivity. clearbody s0.
  apply Sem_Or_inv in H. destruct H as [H|H].
  - apply Sem_Cat_inv in H. destruct H as (s1 & H1 & H).
    apply Sem_Cat_inv in H. destruct H as (s2 & H2 & H).
    apply Sem_Cat_inv in H. destruct H as (s3 & H3 & H).
    apply Sem_Cat_inv in H. destruct H as (s4 & H4 & H).
    apply Sem_Cat_inv in H. destruct H as (s5 & H5 & H).
    apply Sem_Cap_inv in H. destruct H as (s6 & Hid & ->).
    pose proof (Sem_ident (fun c Hc => Hc) Hid) as (w & Hr & Hne & Hc).
    pose proof (reads_trans (Sem_reads H1)
                 (reads_trans (Sem_reads H2)
                    (reads_trans (Sem_reads H3)
                       (reads_trans (Sem_reads H4)
                          (reads_trans (Sem_reads H5) Hr))))) as Hrd.
    apply reads_consumed in Hrd. apply reads_consumed in Hr.
    exists (consumed s0 s1 ++ consumed s1 s2 ++ consumed s2 s3
            ++ consumed s3 s4 ++ consumed s4 s5), w, [].
    simpl get. rewrite Hr.
    split; [apply orString_identifier; split; assumption|].
    split; [now left|]. split; [split; assumption|].
    change (consumed s0 (capture 3 w s6)) with (consumed s0 s6).
    rewrite Hrd, app_nil_r, <- !app_assoc. reflexivity.
  - apply Sem_Cat_inv in H. destruct H as (s1 & H1 & H).
    apply Sem_Cat_inv in H. destruct H as (s2 & H2 & H).
    apply Sem_Cat_inv in H. destruct H as (s3 & H3 & H).
    apply Sem_Cat_inv in H. destruct H as (s4 & H4 & H).
    pose proof (Sem_noCap H eq_refl) as Hcaps.
    pose proof (Sem_reads H) as Htail.
    apply Sem_Cap_inv in H4. destruct H4 as (s4' & Hid & ->).
    pose proof (Sem_noCap Hid eq_refl) as Hc4.
    pose proof (Sem_noCap H3 eq_refl) as Hc3.
    apply Sem_Cap_inv in H2. destruct H2 as (s2' & Hkw & ->).
    pose proof (Sem_noCap Hkw eq_refl) as Hc2.
    pose proof (Sem_noCap H1 eq_refl) as Hc1.
    pose proof (Sem_ident (fun c Hc => Hc) Hid) as (w & Hr & Hne & Hc).
    pose proof (reads_trans (Sem_reads H1)
                 (reads_trans (Sem_reads Hkw)
                    (reads_trans (Sem_reads H3)
                       (reads_trans Hr Htail)))) as Hrd.
    apply reads_consumed in Hrd. apply reads_consumed in Hr.
    exists (consumed s0 s1 ++ consumed s1 s2' ++ consumed s2' s3), w,
           (consumed s4' st').
    rewrite Hcaps. simpl caps. rewrite Hc4, Hc3. simpl caps.
    rewrite Hc2, Hc1, Hc0. simpl get.
    change (consumed (capture 4 (consumed s1 s2') s2') s3)
      with (consumed s2' s3) in *.
    change (consumed (capture 5 (consumed s3 s4') s4') st')
      with (consumed s4' st') in *.
    rewrite Hr.
    split; [simpl; apply orString_identifier; split; assumption|].
    split; [now right|]. split; [split; assumption|].
    rewrite Hrd, <- !app_assoc. reflexivity.
Qed.

End PatternFacts.

(** ** The extent of a Python block *)
Module PyFacts.
Import Str Py.

(** Line [k] of a file, 1-based. *)
Definition lineAt (lines : list jsstring) (k : nat) : jsstring :=
  nth (k - 1) lines [].

Lemma trimStart_length (l : jsstring) :
  length (trimStart l) + leadingSpaces l = length l.
Proof.
  induction l as [|c t IH]; [reflexivity|].
  simpl. destruct (isSpace c); simpl; lia.
Qed.

(** Both ways the source measures indentation agree. *)
Lemma leadingSpaces_indentOf (l : jsstring) : leadingSpaces l = indentOf l.
Proof. unfold indentOf. pose proof (trimStart_length l). lia. Qed.

Lemma blockLoop_spec (init : nat) :
  forall ls i e0,
    e0 <= i ->
    (e0 <= blockLoop init i ls e0 <= i + length ls)
    /\ (blockLoop init i ls e0 = e0
        \/ (i < blockLoop init i ls e0
            /\ isBlank (nth (blockLoop init i ls e0 - 1 - i) ls []) = false))
    /\ (forall k, k < length ls -> i + k < blockLoop init i ls e0 ->
                  isBlank (nth k ls []) = false ->
                  init < indentOf (nth k ls []))
    /\ (forall k, k < length ls -> blockLoop init i ls e0 <= i + k ->
                  (forall j, j < k -> blockLoop init i ls e0 <= i + j ->
                             isBlank (nth j ls []) = true) ->
                  isBlank (nth k ls []) = false ->
                  indentOf (nth k ls []) <= init).
Proof.
  induction ls as [|line t IH]; intros i e0 Hle.
  - simpl. repeat split; try lia; auto; intros; lia.
  - simpl blockLoop. destruct (isBlank line) eqn:Eb;
      [|destruct (indentOf line <=? init) eqn:Ei].
    + destruct (IH (S i) e0) as (A & B & C & D); [lia|].
      set (e := blockLoop init (S i) t e0) in *.
      split; [simpl; lia|]. split; [|split].
      * destruct B as [B|(B1 & B2)]; [now left|right].
        split; [lia|].
        replace (e - 1 - i) with (S (e - 1 - S i)) by lia. exact B2.
      * intros [|k] Hk Hlt Hnb; simpl in *; [congruence|].
        apply C; [lia|lia|assumption].
      * intros [|k] Hk Hge Hall Hnb; simpl in *; [congruence|].
        apply D; [lia|lia| |assumption].
        intros j Hj Hej. apply (Hall (S j)); lia.
    + apply Nat.leb_le in Ei.
      split; [simpl; lia|]. split; [now left|]. split.
      * intros k Hk Hlt. lia.
      * intros [|k] Hk Hge Hall Hnb; simpl in *; [assumption|].
        specialize (Hall 0). simpl in Hall. rewrite Hall in Eb; [|lia|lia].
        discriminate.
    + apply Nat.leb_gt in Ei.
      destruct (IH (S i) (S i)) as (A & B & C & D); [lia|].
      set (e := blockLoop init (S i) t (S i)) in *.
      split; [simpl; lia|]. split; [|split].
      * right. split; [lia|].
        destruct B as [B|(B1 & B2)].
        -- rewrite B. replace (S i - 1 - i) with 0 by lia. exact Eb.
        -- replace (e - 1 - i) with (S (e - 1 - S i)) by lia. exact B2.
      * intros [|k] Hk Hlt Hnb; simpl in *; [assumption|].
        apply C; [lia|lia|assumption].
      * intros [|k] Hk Hge Hall Hnb; simpl in *; [lia|].
        apply D; [lia|lia| |assumption].
        intros j Hj Hej. apply (Hall (S j)); lia.
Qed.

(** Where the block of the declaration on line [startLine] ends. *)
Lemma findPythonBlockEnd_bounds (lines : list jsstring) (startLine : nat) :
  1 <= startLine <= length lines ->
  startLine <= be_endLine (_findPythonBlockEnd lines startLine)
            <= length lines.
Proof.
  intros Hs. unfold _findPythonBlockEnd. simpl be_endLine.
  replace (startLine - 1 + 1) with startLine by lia.
  destruct (blockLoop_spec
              (match nth_error lines (startLine - 1) with
               | Some l => leadingSpaces l
               | None => 0
               end)
              (skipn startLine lines) (i := startLine) (e0 := startLine))
    as (A & _); [lia|].
  rewrite length_skipn in A. lia.
Qed.

Lemma findPythonBlockEnd_code (lines : list jsstring) (startLine : nat) :
  1 <= startLine <= length lines ->
  be_blockCode (_findPythonBlockEnd lines startLine) =
  join [NL] (linesBetween lines startLine
               (be_endLine (_findPythonBlockEnd lines startLine))).
Proof.
  intros Hs. pose proof (findPythonBlockEnd_bounds lines Hs) as Hb.
  rewrite <- StrFacts.slice_linesBetween by lia. reflexivity.
Qed.

End PyFacts.

(** ** The extent of a JavaScript block *)
Module JsFacts.
Import Str Js StrFacts.

Lemma skipToBrace_bounds :
  forall s i, i <= skipToBrace i s <= i + length s.
Proof.
  induction s as [|c t IH]; intros i; simpl; [lia|].
  destruct (N.eqb c 123); [lia|]. specialize (IH (S i)). lia.
Qed.

Lemma scanLoop_bounds :
  forall s st i j, scanLoop st i s = Some j -> i <= j < i + length s.
Proof.
  induction s as [|c t IH]; intros st i j H; simpl in H; [discriminate|].
  destruct (closed (step st c)).
  - injection H as <-. simpl. lia.
  - apply IH in H. simpl. lia.
Qed.

(** The scanner state after the first [n] characters of [s]. *)
Definition stateAfter (st : scan) (s : jsstring) (n : nat) : scan :=
  fold_left step (firstn n s) st.

Lemma scanLoop_None :
  forall s st i,
    (forall n, n < length s -> closed (stateAfter st s (S n)) = false) ->
    scanLoop st i s = None.
Proof.
  induction s as [|c t IH]; intros st i H; [reflexivity|].
  assert (H0 : closed (step st c) = false) by (apply (H 0); simpl; lia).
  simpl. rewrite H0.
  apply IH. intros n Hn. apply (H (S n)). simpl. lia.
Qed.

(** Line on which the emitted text starts: the line of the first opening
    brace at or after [startPos], or the line of [startPos] when no brace
    follows. *)
Definition codeStartLine (content : jsstring) (startPos : nat) : nat :=
  let i := skipToBrace startPos (skipn startPos content) in
  if i <? length content then lineOf content i else lineOf content startPos.

Lemma skipn_as_slice {A : Type} (l : list A) (k : nat) :
  skipn k l = slice l k (length l).
Proof.
  unfold slice. symmetry. apply firstn_all2. rewrite length_skipn. lia.
Qed.

Lemma findJSBlockEnd_lines (content : jsstring) (startPos : nat) :
  startPos <= length content ->
  lineOf content startPos <= codeStartLine content startPos
  /\ codeStartLine content startPos
     <= be_endLine (_findJSBlockEnd content startPos (split NL content))
  /\ be_endLine (_findJSBlockEnd content startPos (split NL content))
     <= length (split NL content)
  /\ be_blockCode (_findJSBlockEnd content startPos (split NL content))
     = join [NL]
         (linesBetween (split NL content) (codeStartLine content startPos)
            (be_endLine
               (_findJSBlockEnd content startPos (split NL content)))).
Proof.
  intros Hp. unfold _findJSBlockEnd, codeStartLine.
  pose proof (skipToBrace_bounds (skipn startPos content) startPos) as Hi.
  rewrite length_skipn in Hi.
  set (i := skipToBrace startPos (skipn startPos content)) in *.
  assert (Hfirst : lineOf content startPos
                   <= (if i <? length content then lineOf content i
                       else lineOf content startPos)).
  { destruct (i <? length content); [apply lineOf_mono|]; lia. }
  destruct (scanLoop scanStart i (skipn i content)) as [j|] eqn:Es;
    simpl be_endLine; simpl be_blockCode.
  - apply scanLoop_bounds in Es. rewrite length_skipn in Es.
    assert (Hlt : i < length content) by lia.
    apply Nat.ltb_lt in Hlt. rewrite Hlt in *.
    pose proof (lineOf_mono content (p := i) (q := j + 1)) as Hm.
    pose proof (lineOf_le_lines content (j + 1)).
    pose proof (lineOf_pos content i).
    split; [assumption|]. split; [lia|]. split; [assumption|].
    rewrite <- slice_linesBetween by lia. reflexivity.
  - assert (Hle : (if i <? length content then lineOf content i
                   else lineOf content startPos)
                  <= length (split NL content)).
    { destruct (i <? length content); apply lineOf_le_lines. }
    assert (Hpos : 1 <= (if i <? length content then lineOf content i
                         else lineOf content startPos)).
    { destruct (i <? length content); apply lineOf_pos. }
    split; [assumption|]. split; [assumption|]. split; [lia|].
    rewrite <- slice_linesBetween by lia.
    rewrite <- skipn_as_slice.
    destruct (i <? length content); reflexivity.
Qed.

Lemma skipToBrace_char :
  forall s i,
    skipToBrace i s < i + length s ->
    nth_error s (skipToBrace i s - i) = Some 123%N.
Proof.
  induction s as [|c t IH]; intros i H; simpl in *; [lia|].
  destruct (N.eqb c 123) eqn:E.
  - rewrite Nat.sub_diag. simpl. apply N.eqb_eq in E. now subst c.
  - pose proof (skipToBrace_bounds t (S i)) as Hb.
    replace (skipToBrace (S i) t - i) with (S (skipToBrace (S i) t - S i))
      by lia.
    simpl. apply IH. lia.
Qed.

Lemma skipToBrace_first :
  forall s i k,
    k < skipToBrace i s - i -> nth_error s k <> Some 123%N.
Proof.
  induction s as [|c t IH]; intros i k H; simpl in *; [lia|].
  destruct (N.eqb c 123) eqn:E; [lia|].
  destruct k as [|k]; simpl.
  - intros Hc. injection Hc as ->. discriminate.
  - apply (IH (S i)). lia.
Qed.

Lemma closed_false (st : scan) :
  (openBraces st <> 0)%Z -> closed st = false.
Proof.
  intros H. unfold closed. apply andb_false_iff. right. now apply Z.eqb_neq.
Qed.

Lemma scanLoop_None_inv :
  forall s st i,
    scanLoop st i s = None ->
    forall n, n < length s -> closed (stateAfter st s (S n)) = false.
Proof.
  induction s as [|c t IH]; intros st i H n Hn; simpl in *; [lia|].
  destruct (closed (step st c)) eqn:Ec; [discriminate|].
  destruct n as [|n]; [exact Ec|].
  apply (IH _ _ H). lia.
Qed.

(** Opening braces minus closing braces. *)
Fixpoint balance (s : jsstring) : Z :=
  match s with
  | [] => 0
  | c :: t =>
      ((if N.eqb c 123 then 1 else if N.eqb c 125 then -1 else 0)
       + balance t)%Z
  end.

Definition noQuotes (s : jsstring) : Prop :=
  Forall (fun c => isQuote c = false) s.

Lemma step_counts (st : scan) (c : char16) :
  isQuote c = false -> inString st = None ->
  inString (step st c) = None
  /\ openBraces (step st c)
     = (openBraces st
        + (if N.eqb c 123 then 1 else if N.eqb c 125 then -1 else 0))%Z
  /\ firstBraceFound (step st c) = firstBraceFound st || N.eqb c 123.
Proof.
  intros Hc Hs. unfold step. rewrite Hs, Hc.
  destruct (N.eqb c 123) eqn:Eo; [|destruct (N.eqb c 125) eqn:Ec]; simpl.
  all: rewrite ?orb_true_r, ?orb_false_r.
  all: repeat split; try exact Hs; try lia.
Qed.

Lemma scan_counts_braces :
  forall p st,
    noQuotes p -> inString st = None ->
    inString (fold_left step p st) = None
    /\ openBraces (fold_left step p st) = (openBraces st + balance p)%Z
    /\ firstBraceFound (fold_left step p st)
       = firstBraceFound st || existsb (fun c => N.eqb c 123) p.
Proof.
  induction p as [|c p IH]; intros st Hq Hs; simpl.
  - rewrite orb_false_r. repeat split; try assumption; lia.
  - inversion Hq as [|? ? Hc Hq']; subst.
    pose proof (@step_counts st c Hc Hs) as Hstep.
    destruct Hstep as (S1 & S2 & S3).
    destruct (IH (step st c) Hq' S1) as (I1 & I2 & I3).
    rewrite I1, I2, I3, S2, S3, orb_assoc. repeat split; lia.
Qed.

Lemma noQuotes_firstn (n : nat) (s : jsstring) :
  noQuotes s -> noQuotes (firstn n s).
Proof.
  revert s. induction n as [|n IH]; intros s H; [constructor|].
  destruct H as [|c s Hc Hs]; [constructor|].
  simpl. constructor; [exact Hc|now apply IH].
Qed.

(** The first opening brace at or after [startPos], read on the text. *)
Lemma codeStartLine_first_brace (content : jsstring) (startPos : nat) :
  startPos <= length content ->
  exists i,
    startPos <= i <= length content
    /\ (forall k, startPos <= k < i -> nth_error content k <> Some 123%N)
    /\ (i < length content ->
        nth_error content i = Some 123%N
        /\ codeStartLine content startPos = lineOf content i)
    /\ (i = length content ->
        codeStartLine content startPos = lineOf content startPos).
Proof.
  intros Hp. unfold codeStartLine.
  pose proof (skipToBrace_bounds (skipn startPos content) startPos) as Hi.
  pose proof (@skipToBrace_char (skipn startPos content) startPos) as Hch.
  pose proof (@skipToBrace_first (skipn startPos content) startPos) as Hfst.
  rewrite length_skipn in Hi, Hch.
  set (i := skipToBrace startPos (skipn startPos content)) in *.
  exists i. split; [lia|]. split; [|split].
  - intros k Hk. specialize (Hfst (k - startPos) ltac:(lia)).
    rewrite nth_error_skipn in Hfst.
    replace (startPos + (k - startPos)) with k in Hfst by lia. exact Hfst.
  - intros Hlt. specialize (Hch ltac:(lia)). rewrite nth_error_skipn in Hch.
    replace (startPos + (i - startPos)) with i in Hch by lia.
    split; [exact Hch|]. apply Nat.ltb_lt in Hlt. now rewrite Hlt.
  - intros He. rewrite He, Nat.ltb_irrefl. reflexivity.
Qed.

End JsFacts.

(** ** The chunks of a file and of a directory *)
Module ChunkFacts.
Import Re ReFacts.

Lemma python_minLen : 0 < minLen Py.pattern.
Proof. vm_compute. lia. Qed.

Lemma javascript_minLen : 0 < minLen Js.pattern.
Proof. vm_compute. lia. Qed.

(** Both extractors return: their loop over the matches ends. *)
Lemma parseFile_total lang content path :
  exists chunks, parseFile lang content path = Some chunks.
Proof.
  destruct lang; simpl;
    unfold Py._parsePython, Js._parseJavaScriptTypeScript.
  1: destruct (@execAll_total Py.pattern content python_minLen) as (ms & ->); eauto.
  all: destruct (@execAll_total Js.pattern content javascript_minLen)
    as (ms & ->); eauto.
Qed.

Lemma python_chunks content path chunks c :
  Py._parsePython content path = Some chunks -> In c chunks ->
  exists m, matchOf Py.pattern content m
            /\ c = Py.chunkOf content (Str.split NL content) path m.
Proof.
  unfold Py._parsePython. intros H Hc.
  destruct (execAll Py.pattern content) as [ms|] eqn:E; [|discriminate].
  injection H as <-. apply in_map_iff in Hc. destruct Hc as (m & <- & Hm).
  apply execAll_matches in E. rewrite Forall_forall in E. eauto.
Qed.

Lemma javascript_chunks content path lang chunks c :
  Js._parseJavaScriptTypeScript content path lang = Some chunks ->
  In c chunks ->
  exists m, matchOf Js.pattern content m
            /\ c = Js.chunkOf content (Str.split NL content) path lang m.
Proof.
  unfold Js._parseJavaScriptTypeScript. intros H Hc.
  destruct (execAll Js.pattern content) as [ms|] eqn:E; [|discriminate].
  injection H as <-. apply in_map_iff in Hc. destruct Hc as (m & <- & Hm).
  apply execAll_matches in E. rewrite Forall_forall in E. eauto.
Qed.

Lemma parseFile_fields lang content path chunks c :
  parseFile lang content path = Some chunks -> In c chunks ->
  filePath c = path /\ language c = lang.
Proof.
  intros H Hc. destruct lang; simpl in H.
  1: destruct (@python_chunks _ _ _ _ H Hc) as (m & _ & ->); auto.
  all: destruct (@javascript_chunks _ _ _ _ _ H Hc) as (m & _ & ->); auto.
Qed.

(** Where the chunks of the loop of parseDirectory come from. *)
Lemma parseFiles_chunks :
  forall files acc chunks,
    parseFiles files acc = Resolved chunks ->
    forall c, In c chunks ->
      In c acc
      \/ exists path content lang cs,
           In (path, inl content) files
           /\ SUPPORTED_EXTENSIONS (Path.extname path) = Some lang
           /\ parseFile lang content path = Some cs
           /\ In c cs.
Proof.
  induction files as [|[path data] more IH]; intros acc chunks H c Hc;
    simpl in H.
  - injection H as <-. now left.
  - destruct (SUPPORTED_EXTENSIONS (Path.extname path)) as [lang|] eqn:El.
    + destruct data as [content|cause]; [|discriminate].
      destruct (parseFile lang content path) as [cs|] eqn:Ep;
        [|discriminate].
      destruct (@IH _ _ H c Hc) as [Hacc|(p & ct & l & cs' & Hin & R)].
      * apply in_app_or in Hacc. destruct Hacc as [Hacc|Hcs]; [now left|].
        right. exists path, content, lang, cs. simpl. auto.
      * right. exists p, ct, l, cs'. simpl. tauto.
    + destruct (@IH _ _ H c Hc) as [Hacc|(p & ct & l & cs' & Hin & R)];
        [now left|].
      right. exists p, ct, l, cs'. simpl. tauto.
Qed.

Lemma parseDirectory_chunks directory root chunks c :
  parseDirectory directory root = Resolved chunks -> In c chunks ->
  exists files path content lang cs,
    getAllFiles directory root [] = Resolved files
    /\ In (path, inl content) files
    /\ SUPPORTED_EXTENSIONS (Path.extname path) = Some lang
    /\ parseFile lang content path = Some cs
    /\ In c cs.
Proof.
  unfold parseDirectory. intros H Hc.
  destruct (getAllFiles directory root []) as [files| |]; try discriminate.
  destruct (@parseFiles_chunks _ _ _ H c Hc)
    as [[]|(p & ct & l & cs & R)].
  exists files, p, ct, l, cs. tauto.
Qed.

End ChunkFacts.

(** * The claims *)

(** Text of a file given line by line. *)
Definition text (lines : list string) : jsstring :=
  Str.join [NL] (map u lines).

(** ** C1: the lines of a chunk *)
Module Lines.
Import Str StrFacts Re ReFacts ChunkFacts JsFacts.

(** A function whose body opens on the line after its header. *)
Definition braceOnNextLine : jsstring :=
  text [ "function f()"; "{"; "}" ]%string.

Definition oneScript : fsnode :=
  Dir [(u "a.js", File (inl braceOnNextLine))].

(** C1, as worded, fails on a JavaScript chunk whose opening brace is not
    on the line of the declaration: the chunk is numbered 1 to 3 and its
    text is made of lines 2 and 3. *)
Lemma brace_on_next_line_code_starts_late :
  parseDirectory (u "src") oneScript
  = Resolved [ mkChunk (u "src/a.js") javascript function (u "f") 1 3 None
                       (text ["{"; "}"]%string) ]
  /\ text ["{"; "}"]%string
     <> join [NL] (linesBetween (split NL braceOnNextLine) 1 3).
Proof. split; vm_compute; congruence. Qed.

(** C1, amended: for every chunk returned by parseDirectory, with the
    lines of its file, [1 <= startLine <= endLine <= number of lines], and
    [code] is the exact join of the lines [first..endLine], where
    [startLine <= first <= endLine].  Every chunk is built from a match
    [m] of the pattern of its language and [startLine] is the line of the
    start of [m].  For a Python chunk [first] is [startLine]; for a
    JavaScript or TypeScript chunk [first] is the line of the first opening brace (character 123) at or
    after the start of [m], at position [i]; when no brace follows, [i] is
    the length of the text and [first] is [startLine]. *)
Theorem chunk_code_is_a_slice_of_lines directory root chunks :
  parseDirectory directory root = Resolved chunks ->
  Forall (fun c =>
    exists files content,
      getAllFiles directory root [] = Resolved files
      /\ In (filePath c, inl content) files
      /\ 1 <= startLine c <= endLine c
      /\ endLine c <= length (split NL content)
      /\ exists first,
           startLine c <= first <= endLine c
           /\ code c = join [NL] (linesBetween (split NL content) first
                                    (endLine c))
           /\ (language c = python ->
               first = startLine c
               /\ exists m,
                    matchOf Py.pattern content m
                    /\ c = Py.chunkOf content (split NL content)
                                      (filePath c) m
                    /\ startLine c = lineOf content (index m))
           /\ (language c <> python ->
               exists m i,
                 matchOf Js.pattern content m
                 /\ c = Js.chunkOf content (split NL content) (filePath c)
                                   (language c) m
                 /\ startLine c = lineOf content (index m)
                 /\ index m <= i <= length content
                 /\ (forall k, index m <= k < i ->
                                nth_error content k <> Some 123%N)
                 /\ (i < length content ->
                     nth_error content i = Some 123%N
                     /\ first = lineOf content i)
                 /\ (i = length content -> first = startLine c))) chunks.
Proof.
  intros H. apply Forall_forall. intros c Hc.
  destruct (@parseDirectory_chunks _ _ _ _ H Hc)
    as (files & path & content & lang & cs & Hf & Hin & Hl & Hp & Hcs).
  destruct (@parseFile_fields _ _ _ _ _ Hp Hcs) as (Hpath & Hlang).
  exists files, content. rewrite Hpath.
  split; [assumption|]. split; [assumption|].
  assert (Hpy : lang = python \/ lang <> python)
    by (destruct lang; (now left) || (right; discriminate)).
  destruct Hpy as [-> | Hnp].
  - simpl in Hp.
    destruct (@python_chunks _ _ _ _ Hp Hcs) as (m & Hm & ->).
    unfold Py.chunkOf. cbn [startLine endLine code language].
    pose proof (lineOf_pos content (index m)) as H1.
    pose proof (lineOf_le_lines content (index m)) as H2.
    pose proof (@PyFacts.findPythonBlockEnd_bounds
                  (split NL content) _ (conj H1 H2)) as Hb.
    split; [lia|]. split; [lia|].
    exists (lineOf content (index m)).
    split; [lia|]. split; [|split; [|congruence]].
    + apply PyFacts.findPythonBlockEnd_code. lia.
    + intros _. split; [reflexivity|]. exists m. auto.
  - assert (Hjs : Js._parseJavaScriptTypeScript content path lang = Some cs)
      by (destruct lang; simpl in Hp; congruence).
    destruct (@javascript_chunks _ _ _ _ _ Hjs Hcs) as (m & Hm & ->).
    unfold Js.chunkOf. cbn [startLine endLine code language].
    pose proof Hm as (Hi & _).
    destruct (@findJSBlockEnd_lines content _ Hi) as (A & B & C & D).
    pose proof (lineOf_pos content (index m)).
    split; [lia|]. split; [lia|].
    exists (codeStartLine content (index m)).
    split; [lia|]. split; [exact D|]. split; [congruence|].
    intros _.
    destruct (@codeStartLine_first_brace content _ Hi)
      as (i & Hb & Hno & Hbrace & Hend).
    exists m, i. repeat (split; [first [exact Hm|reflexivity|lia|exact Hno]|]).
    split; assumption.
Qed.

Lemma chunk_code_is_a_slice_of_lines_witness :
  parseDirectory (u "src") oneScript
  = Resolved [ mkChunk (u "src/a.js") javascript function (u "f") 1 3 None
                       (text ["{"; "}"]%string) ]
  /\ Forall (fun c =>
       exists files content,
         getAllFiles (u "src") oneScript [] = Resolved files
         /\ In (filePath c, inl content) files
         /\ 1 <= startLine c <= endLine c
         /\ endLine c <= length (split NL content)
         /\ exists first,
              startLine c <= first <= endLine c
              /\ code c = join [NL] (linesBetween (split NL content) first
                                       (endLine c))
              /\ (language c = python ->
                  first = startLine c
                  /\ exists m,
                       matchOf Py.pattern content m
                       /\ c = Py.chunkOf content (split NL content)
                                         (filePath c) m
                       /\ startLine c = lineOf content (index m))
              /\ (language c <> python ->
                  exists m i,
                    matchOf Js.pattern content m
                    /\ c = Js.chunkOf content (split NL content) (filePath c)
                                      (language c) m
                    /\ startLine c = lineOf content (index m)
                    /\ index m <= i <= length content
                    /\ (forall k, index m <= k < i ->
                                   nth_error content k <> Some 123%N)
                    /\ (i < length content ->
                        nth_error content i = Some 123%N
                        /\ first = lineOf content i)
                    /\ (i = length content -> first = startLine c)))
       [ mkChunk (u "src/a.js") javascript function (u "f") 1 3 None
                 (text ["{"; "}"]%string) ].
Proof.
  split; [vm_compute; reflexivity|].
  apply (@chunk_code_is_a_slice_of_lines (u "src") oneScript).
  vm_compute. reflexivity.
Defined.

End Lines.

(** ** C2: the documentation block of a JavaScript function *)
Module JsDoc.
Import Str Js.

Definition documented : jsstring := u "/** doc */function f() {}".

(** C2 at a function that directly follows its block comment: the pattern
    takes the comment into the match, the match starts at the comment, and
    nothing is left before it for the documentation pattern to find.  The
    chunk gets null.  Looked for from the [function] keyword (position
    10), the same extraction finds the text of the comment. *)
Theorem documented_function_gets_no_docstring :
  option_map (map (fun c => (name c, chunkType c, startLine c, docString c)))
             (_parseJavaScriptTypeScript documented (u "a.js") javascript)
  = Some [(u "f", function, 1, None)]
  /\ option_map (map Re.index) (Re.execAll pattern documented) = Some [0]
  /\ docstringOf documented 10 = Some (u "doc").
Proof. repeat split; vm_compute; reflexivity. Qed.

End JsDoc.

(** ** C3: Python docstrings *)
Module Docstring.
Import Str Py.

(** The extraction as the specification words it: the closing marker is
    looked for after the opening one, on the opening line or on a later
    line, and the text runs to the line that holds it. *)
Fixpoint closingLine (quoteChar : jsstring) (opening : bool) (i : nat)
  (ls : list jsstring) : option nat :=
  match ls with
  | [] => None
  | line :: t =>
      let searched := if opening then skipn 3 (trimStart line) else line in
      if includes quoteChar searched then Some i
      else closingLine quoteChar false (S i) t
  end.

Definition docstringAsSpecified (lines : list jsstring)
  (startLineIndex : nat) : option jsstring :=
  let firstLineAfterDef :=
    match nth_error lines (startLineIndex + 1) with
    | Some l => trim l
    | None => []
    end in
  if startsWith tripleDouble firstLineAfterDef
     || startsWith tripleSingle firstLineAfterDef
  then
    let quoteChar := firstn 3 firstLineAfterDef in
    match closingLine quoteChar true (startLineIndex + 1)
                      (skipn (startLineIndex + 1) lines) with
    | Some closing =>
        Some (trim (removeAll quoteChar
                      (join [NL] (slice lines (startLineIndex + 1)
                                        (closing + 1)))))
    | None => None
    end
  else None.

(** The docstring of the test file of the repository, on two lines. *)
Definition twoLineDoc : jsstring :=
  text [ "def with_docstring():";
         "    '''This is a docstring";
         "    with multiple lines.'''";
         "    pass" ]%string.

(** A docstring that is never closed. *)
Definition openDoc : jsstring :=
  text [ "def f():"; "    '''abc"; "    pass" ]%string.

(** C3 at a docstring of two lines: the scan for the closing marker starts
    on the opening line, which holds the marker, so it stops there.  The
    chunk gets the first line only, where the claim has both; and a
    docstring that is never closed gets its first line, where the claim has
    null. *)
Theorem docstring_is_cut_at_opening_line :
  option_map (map (fun c => (name c, docString c)))
             (_parsePython twoLineDoc (u "test.py"))
  = Some [(u "with_docstring", Some (u "This is a docstring"))]
  /\ docstringAsSpecified (split NL twoLineDoc) 0
     = Some (text ["This is a docstring"; "    with multiple lines."]%string)
  /\ option_map (map (fun c => (name c, docString c)))
                (_parsePython openDoc (u "test.py"))
     = Some [(u "f", Some (u "abc"))]
  /\ docstringAsSpecified (split NL openDoc) 0 = None.
Proof. repeat split; vm_compute; reflexivity. Qed.

(** Facts on [startsWith], [includes] and [trim]. *)
Lemma startsWith_firstn (p s : jsstring) :
  startsWith p s = true -> firstn (length p) s = p.
Proof.
  revert s. induction p as [|x p IH]; intros [|y s] H; simpl in *;
    try reflexivity; try discriminate.
  apply andb_prop in H. destruct H as (Hx & Hp).
  apply N.eqb_eq in Hx. subst y. now rewrite IH.
Qed.

Lemma startsWith_app (p a b : jsstring) :
  startsWith p a = true -> startsWith p (a ++ b) = true.
Proof.
  revert a. induction p as [|x p IH]; intros [|y a] H; simpl in *;
    try reflexivity; try discriminate.
  apply andb_prop in H. destruct H as (Hx & Hp).
  rewrite Hx. simpl. now apply IH.
Qed.

Lemma includes_unfold (p s : jsstring) :
  includes p s
  = startsWith p s || match s with [] => false | _ :: t => includes p t end.
Proof. destruct s; reflexivity. Qed.

Lemma includes_app_r (p a b : jsstring) :
  includes p a = true -> includes p (a ++ b) = true.
Proof.
  induction a as [|y a IH]; intros H.
  - rewrite includes_unfold in H. rewrite orb_false_r in H.
    rewrite includes_unfold. apply orb_true_intro. left.
    now apply (startsWith_app _ [] b).
  - rewrite includes_unfold in H. apply orb_prop in H.
    rewrite <- app_comm_cons, includes_unfold. apply orb_true_intro.
    destruct H as [H|H]; [left|right].
    + now apply (startsWith_app _ (y :: a) b).
    + now apply IH.
Qed.

Lemma includes_app_l (p a b : jsstring) :
  includes p b = true -> includes p (a ++ b) = true.
Proof.
  intros H. induction a as [|y a IH]; [exact H|].
  rewrite <- app_comm_cons, includes_unfold, IH. apply orb_true_r.
Qed.

Lemma trimStart_suffix (l : jsstring) : exists ws, l = ws ++ trimStart l.
Proof.
  induction l as [|c l (ws & IH)]; [exists []; reflexivity|].
  simpl. destruct (isSpace c).
  - exists (c :: ws). simpl. now rewrite <- IH.
  - exists []. reflexivity.
Qed.

Lemma trim_inside (l : jsstring) :
  exists before after, l = before ++ trim l ++ after.
Proof.
  destruct (trimStart_suffix l) as (ws1 & H1).
  destruct (trimStart_suffix (rev (trimStart l))) as (ws2 & H2).
  exists ws1, (rev ws2). unfold trim, trimEnd.
  rewrite <- rev_app_distr, <- H2, rev_involutive. exact H1.
Qed.

Lemma includes_trim (p l : jsstring) :
  includes p (trim l) = true -> includes p l = true.
Proof.
  intros H. destruct (trim_inside l) as (before & after & E).
  rewrite E. apply includes_app_l. now apply includes_app_r.
Qed.

Lemma skipn_nth_error {A : Type} (l : list A) (k : nat) (x : A) :
  nth_error l k = Some x -> skipn k l = x :: skipn (S k) l.
Proof.
  revert k. induction l as [|y l IH]; intros [|k] H; simpl in *;
    try discriminate.
  - now injection H as ->.
  - now apply IH.
Qed.

(** In general: the scan always stops on the line after the header, so a
    docstring is never more than that one line without its markers, and the
    case of a closing marker that is not found never arises. *)
Lemma docstring_is_one_line (lines : list jsstring) (startLineIndex : nat) :
  docstringOf lines startLineIndex
  = match nth_error lines (startLineIndex + 1) with
    | Some line =>
        if startsWith tripleDouble (trim line)
        then Some (trim (removeAll tripleDouble line))
        else if startsWith tripleSingle (trim line)
        then Some (trim (removeAll tripleSingle line))
        else None
    | None => None
    end.
Proof.
  unfold docstringOf.
  destruct (nth_error lines (startLineIndex + 1)) as [line|] eqn:En;
    [|reflexivity].
  assert (Hq : forall q, length q = 3 -> startsWith q (trim line) = true ->
             match docEndLoop (firstn 3 (trim line)) (startLineIndex + 1)
                     (skipn (startLineIndex + 1) lines) with
             | Some e =>
                 Some (trim (removeAll (firstn 3 (trim line))
                               (join [NL] (slice lines (startLineIndex + 1)
                                                 (e + 1)))))
             | None => None
             end = Some (trim (removeAll q line))).
  { intros q Hlen Hs.
    pose proof (startsWith_firstn _ _ Hs) as Hf. rewrite Hlen in Hf.
    rewrite Hf, (skipn_nth_error _ _ En). simpl docEndLoop.
    assert (Hinc : includes q line = true).
    { apply includes_trim. rewrite includes_unfold, Hs. reflexivity. }
    rewrite Hinc. unfold slice.
    replace (startLineIndex + 1 + 1 - (startLineIndex + 1)) with 1 by lia.
    rewrite (skipn_nth_error _ _ En). reflexivity. }
  destruct (startsWith tripleDouble (trim line)) eqn:Ed.
  - simpl orb. cbv iota. now apply Hq.
  - destruct (startsWith tripleSingle (trim line)) eqn:Es; [|reflexivity].
    simpl orb. cbv iota. now apply Hq.
Qed.

End Docstring.

(** ** C4: Python functions and methods *)
Module Classification.
Import Str Py.

(** A class with one method, then a function. *)
Definition classWithMethod : jsstring :=
  text [ "class A:";
         "    def f(self):";
         "        pass";
         "def g():";
         "    pass" ]%string.

(** C4 at a class with a method: the pattern is anchored at the start of
    the line and allows no indentation before [def], so the method is not
    matched at all.  The file yields the class and the function and no
    chunk for [f], although _isPythonMethod answers true on its line. *)
Theorem indented_def_is_not_matched :
  option_map (map (fun c => (name c, chunkType c, startLine c, endLine c)))
             (_parsePython classWithMethod (u "a.py"))
  = Some [(u "A", class, 1, 3); (u "g", function, 4, 5)]
  /\ _isPythonMethod (split NL classWithMethod) 1 = true.
Proof. split; vm_compute; reflexivity. Qed.

(** Files whose only line terminator is the line feed. *)
Definition onlyLineFeeds (content : jsstring) : Prop :=
  Forall (fun c => isLineTerminator c = true -> c = NL) content.

Lemma firstn_S_nth_error {A : Type} (l : list A) (j : nat) (c : A) :
  nth_error l j = Some c -> firstn (S j) l = firstn j l ++ [c].
Proof.
  revert j. induction l as [|x l IH]; intros [|j] H; simpl in *;
    try discriminate.
  - now injection H as ->.
  - now rewrite <- IH.
Qed.

Lemma split_hd_cons (c : char16) (r : jsstring) :
  N.eqb c NL = false -> exists l, hd [] (split NL (c :: r)) = c :: l.
Proof.
  intros H. simpl. rewrite H. destruct (split NL r); simpl; eauto.
Qed.

Lemma split_last_line (pre rest : jsstring) :
  nth (length (split NL pre) - 1) (split NL (pre ++ rest)) []
  = last (split NL pre) [] ++ hd [] (split NL rest).
Proof.
  induction pre as [|c pre IH].
  - simpl. destruct (split NL rest); reflexivity.
  - pose proof (StrFacts.split_length_pos NL pre) as Hp.
    pose proof (StrFacts.split_length_pos NL (pre ++ rest)) as Hq.
    rewrite <- app_comm_cons. simpl split.
    destruct (split NL pre) as [|l ls] eqn:E; [simpl in Hp; lia|].
    destruct (split NL (pre ++ rest)) as [|l' ls'] eqn:E'; [simpl in Hq; lia|].
    cbn [length Nat.sub] in IH. rewrite Nat.sub_0_r in IH.
    destruct (N.eqb c NL); cbn [length Nat.sub].
    + exact IH.
    + rewrite Nat.sub_0_r. destruct ls as [|l2 ls2].
      * simpl in *. now rewrite IH.
      * exact IH.
Qed.
Lemma split_last_after_NL (p : jsstring) : last (split NL (p ++ [NL])) [] = [].
Proof.
  induction p as [|c p IH]; [reflexivity|].
  pose proof (StrFacts.split_app_length NL p [NL]) as Hl.
  pose proof (StrFacts.split_length_pos NL p) as Hp.
  rewrite <- app_comm_cons. simpl split.
  destruct (split NL (p ++ [NL])) as [|l ls] eqn:E; [simpl in Hl; lia|].
  destruct ls as [|l2 ls2]; [simpl in Hl; lia|].
  destruct (N.eqb c NL); exact IH.
Qed.

Lemma keyword_first_char a b :
  ReFacts.Sem (Re.Or (Re.seq [Re.lit (u "async"); Re.plus Re.space;
                              Re.lit (u "def")])
                     (Re.Or (Re.lit (u "def")) (Re.lit (u "class")))) a b ->
  exists c r, Re.rest a = c :: r /\ isSpace c = false.
Proof.
  intros H.
  assert (Hk : exists k : char16,
             In k [97%N; 100%N; 99%N]
             /\ exists r x, ReFacts.Sem (Re.chr k) a x /\ ReFacts.Sem r x b).
  { apply PatternFacts.Sem_Or_inv in H. destruct H as [H|H];
      [|apply PatternFacts.Sem_Or_inv in H; destruct H as [H|H]].
    - apply PatternFacts.Sem_Cat_inv in H. destruct H as (y & H & H2).
      apply PatternFacts.Sem_Cat_inv in H. destruct H as (x & H & H3).
      exists 97%N. split; [simpl; auto|].
      exists (Re.Cat (Re.lit (u "sync"))
                     (Re.seq [Re.plus Re.space; Re.lit (u "def")])), x.
      split; [exact H|]. econstructor; eassumption.
    - apply PatternFacts.Sem_Cat_inv in H. destruct H as (x & H & H3).
      exists 100%N. split; [simpl; auto|]. eauto.
    - apply PatternFacts.Sem_Cat_inv in H. destruct H as (x & H & H3).
      exists 99%N. split; [simpl; auto|]. eauto. }
  destruct Hk as (k & Hin & r & x & Hc & _).
  apply PatternFacts.Sem_Chr_inv in Hc. destruct Hc as (c & E & Hp & _).
  apply N.eqb_eq in Hp. subst c. exists k, (Re.rest x). split; [exact E|].
  simpl in Hin. destruct Hin as [<-|[<-|[<-|[]]]]; reflexivity.
Qed.

Lemma declaration_line_not_indented content m :
  onlyLineFeeds content ->
  ReFacts.matchOf pattern content m ->
  indentOf (nth (lineOf content (Re.index m) - 1) (split NL content) []) = 0.
Proof.
  intros Hlf (Hi & st' & H & _).
  apply PatternFacts.Sem_Cat_inv in H. destruct H as (s1 & Hbol & H).
  apply PatternFacts.Sem_Bol_inv in Hbol. destruct Hbol as (-> & Hbol).
  apply PatternFacts.Sem_Cat_inv in H. destruct H as (s2 & Hkw & _).
  apply PatternFacts.Sem_Cap_inv in Hkw. destruct Hkw as (s3 & Hkw & _).
  apply keyword_first_char in Hkw. destruct Hkw as (c & r & Hr & Hc).
  simpl in Hr, Hbol.
  assert (Hnl : N.eqb c NL = false).
  { destruct (N.eqb c NL) eqn:E; [|reflexivity].
    apply N.eqb_eq in E. subst c. discriminate. }
  destruct (@split_hd_cons c r Hnl) as (l & Hhd).
  assert (Hlast : last (split NL (firstn (Re.index m) content)) [] = []).
  { destruct (Re.index m) as [|j] eqn:Ej; [reflexivity|].
    simpl in Hbol. destruct (nth_error content j) as [p|] eqn:Ep;
      [|apply nth_error_None in Ep; lia].
    rewrite (@firstn_S_nth_error _ _ _ _ Ep).
    assert (p = NL) as ->.
    { unfold onlyLineFeeds in Hlf. rewrite Forall_forall in Hlf.
      apply Hlf; [|exact Hbol].
      eapply nth_error_In; eassumption. }
    apply split_last_after_NL. }
  unfold lineOf, prefix.
  rewrite <- (firstn_skipn (Re.index m) content) at 2.
  rewrite split_last_line, Hlast, Hr, Hhd. simpl.
  unfold indentOf. simpl. rewrite Hc. simpl. lia.
Qed.

(** In every file whose only line terminator is the line
    feed: a match starts right after a line feed (or at position 0) with the
    keyword itself, so the line of the declaration has no indentation and
    _isPythonMethod answers false.  No chunk of such a file is a method. *)
Lemma no_method_with_line_feeds content path chunks :
  onlyLineFeeds content ->
  _parsePython content path = Some chunks ->
  Forall (fun c => chunkType c <> method) chunks.
Proof.
  intros Hlf H. apply Forall_forall. intros c Hc.
  destruct (@ChunkFacts.python_chunks _ _ _ _ H Hc) as (m & Hm & ->).
  pose proof (@declaration_line_not_indented _ _ Hlf Hm) as Hind.
  unfold chunkOf. cbn [chunkType]. unfold _isPythonMethod.
  rewrite Hind.
  destruct (lineOf content (Re.index m) - 1 =? 0); simpl;
    destruct (Re.group 1 m) as [kw|]; try destruct (eqb kw (u "class"));
    discriminate.
Qed.

End Classification.

(** ** C5: braces inside string literals *)
Module Braces.
Import Str Js.

(** The first brace after the declaration is inside a string literal. *)
Definition quotedBrace : jsstring :=
  text [ "function f(a = '{') { return 1; }";
         "function g() { return 2; }" ]%string.

(** C5 at a quoted brace that comes before the body: the search for the
    opening brace does not track strings, so it stops on the brace inside
    the quotes (position 16) and the scanner counts it.  The quote that
    follows then opens a string that never ends, the depth stays at 1, and
    the chunk of [f] runs to the end of the file instead of ending on
    line 1. *)
Theorem quoted_brace_is_counted :
  skipToBrace 0 quotedBrace = 16
  /\ nth 15 quotedBrace 0%N = 39%N /\ nth 17 quotedBrace 0%N = 39%N
  /\ openBraces (step scanStart (nth 16 quotedBrace 0%N)) = 1%Z
  /\ option_map (map (fun c => (name c, startLine c, endLine c)))
                (_parseJavaScriptTypeScript quotedBrace (u "a.js") javascript)
     = Some [(u "f", 1, 2); (u "g", 2, 2)].
Proof. repeat split; vm_compute; reflexivity. Qed.

(** What does hold: once the scanner is inside a string, no character
    changes the depth, and a quote preceded by a backslash does not end the
    string; and the scan returns at the first character after which an
    opened block is back at depth 0. *)
Lemma step_inside_string (st : scan) (q c : char16) :
  inString st = Some q -> openBraces (step st c) = openBraces st.
Proof.
  intros H. unfold step. rewrite H.
  destruct (N.eqb c q && negb (escape st)); reflexivity.
Qed.

Lemma step_escaped_quote (st : scan) (q : char16) :
  inString st = Some q -> escape st = true ->
  inString (step st q) = Some q.
Proof.
  intros H He. unfold step. rewrite H, He, N.eqb_refl. reflexivity.
Qed.

Lemma scanLoop_first :
  forall s st i j,
    scanLoop st i s = Some j ->
    i <= j
    /\ closed (JsFacts.stateAfter st s (S (j - i))) = true
    /\ forall n, n < j - i -> closed (JsFacts.stateAfter st s (S n)) = false.
Proof.
  induction s as [|c t IH]; intros st i j H; simpl in H; [discriminate|].
  destruct (closed (step st c)) eqn:Ec.
  - injection H as <-. rewrite Nat.sub_diag.
    split; [lia|]. split; [exact Ec|]. intros n Hn. lia.
  - apply IH in H. destruct H as (Hle & Hj & Hn).
    split; [lia|].
    replace (j - i) with (S (j - S i)) by lia.
    split; [exact Hj|].
    intros [|n] Hlt; [exact Ec|]. apply Hn. lia.
Qed.

End Braces.

(** ** C6: how far a Python block extends *)
Module BlockExtent.
Import Str Py PyFacts.

(** Line [t] is the first non-blank line after [startLine] indented no
    deeper than the declaration. *)
Definition endsBlock (lines : list jsstring) (startLine t : nat) : Prop :=
  startLine < t <= length lines
  /\ isBlank (lineAt lines t) = false
  /\ indentOf (lineAt lines t) <= indentOf (lineAt lines startLine)
  /\ forall k, startLine < k < t ->
               isBlank (lineAt lines k) = true
               \/ indentOf (lineAt lines startLine)
                  < indentOf (lineAt lines k).

(** Two functions separated by a blank line. *)
Definition twoDefs : list jsstring :=
  [u "def f():"; u "    pass"; []; u "def g():"; u "    pass"].

(** C6, as worded, puts the end of the block of [f] on line 3, the last
    line before [def g():]; the source stops on line 2 and leaves the blank
    line out of the emitted text. *)
Lemma blank_before_next_def_left_out :
  endsBlock twoDefs 1 4
  /\ be_endLine (_findPythonBlockEnd twoDefs 1) = 2
  /\ be_endLine (_findPythonBlockEnd twoDefs 1) <> 4 - 1
  /\ be_blockCode (_findPythonBlockEnd twoDefs 1) = text ["def f():"; "    pass"]%string.
Proof.
  split; [|split; [|split]]; try (vm_compute; congruence).
  unfold endsBlock. split; [simpl; lia|].
  split; [reflexivity|]. split; [vm_compute; lia|].
  intros k Hk. assert (k = 2 \/ k = 3) as [-> | ->] by lia.
  - right. vm_compute. lia.
  - left. reflexivity.
Qed.

(** C6, amended: the block runs from the declaration line to the last
    non-blank line before the first later non-blank line whose indentation
    is at or below the declaration's (to the last non-blank line of the
    file when there is none such).  Blank lines are skipped when measuring:
    every non-blank line of the block is indented deeper than the
    declaration, blank lines inside the block stay in the emitted text and
    the blank lines after its last non-blank line are left out. *)
Theorem python_block_extent (lines : list jsstring) (startLine : nat) :
  1 <= startLine <= length lines ->
  let b := _findPythonBlockEnd lines startLine in
  let e := be_endLine b in
  startLine <= e <= length lines
  /\ (e = startLine \/ isBlank (lineAt lines e) = false)
  /\ (forall k, startLine < k <= e -> isBlank (lineAt lines k) = false ->
                indentOf (lineAt lines startLine)
                < indentOf (lineAt lines k))
  /\ (forall k, e < k <= length lines ->
                (forall j, e < j < k -> isBlank (lineAt lines j) = true) ->
                isBlank (lineAt lines k) = false ->
                indentOf (lineAt lines k)
                <= indentOf (lineAt lines startLine))
  /\ be_blockCode b = join [NL] (linesBetween lines startLine e).
Proof.
  intros Hs b e.
  pose proof (findPythonBlockEnd_bounds lines Hs) as Hb.
  pose proof (findPythonBlockEnd_code lines Hs) as Hc.
  fold b in Hb, Hc. fold e in Hb, Hc.
  split; [exact Hb|]. split; [|split; [|split; [|exact Hc]]].
  all: unfold e, b, _findPythonBlockEnd in *; simpl be_endLine in *.
  all: replace (startLine - 1 + 1) with startLine in * by lia.
  all: assert (Hinit : match nth_error lines (startLine - 1) with
                       | Some l => leadingSpaces l
                       | None => 0
                       end = indentOf (lineAt lines startLine))
    by (unfold lineAt;
        destruct (nth_error lines (startLine - 1)) as [l|] eqn:En;
        [rewrite (nth_error_nth _ _ _ En); apply leadingSpaces_indentOf
        |apply nth_error_None in En; lia]).
  all: rewrite Hinit in *.
  all: destruct (blockLoop_spec (indentOf (lineAt lines startLine))
                   (skipn startLine lines) (i := startLine)
                   (e0 := startLine)) as (A & B & C & D); [lia|].
  all: set (e' := blockLoop (indentOf (lineAt lines startLine)) startLine
                    (skipn startLine lines) startLine) in *.
  all: rewrite length_skipn in *.
  - destruct B as [B|(B1 & B2)]; [now left|right].
    rewrite nth_skipn in B2. unfold lineAt.
    replace (e' - 1) with (startLine + (e' - 1 - startLine)) by lia.
    exact B2.
  - intros k Hk Hnb. unfold lineAt in *.
    specialize (C (k - 1 - startLine)). rewrite nth_skipn in C.
    replace (startLine + (k - 1 - startLine)) with (k - 1) in C by lia.
    apply C; [lia|lia|assumption].
  - intros k Hk Hall Hnb. unfold lineAt in *.
    specialize (D (k - 1 - startLine)). rewrite nth_skipn in D.
    replace (startLine + (k - 1 - startLine)) with (k - 1) in D by lia.
    apply D; [lia|lia| |assumption].
    intros j Hj Hej. rewrite nth_skipn.
    specialize (Hall (startLine + j + 1)).
    replace (startLine + j + 1 - 1) with (startLine + j) in Hall by lia.
    apply Hall. lia.
Qed.

Lemma python_block_extent_witness :
  1 <= 1 <= length twoDefs
  /\ be_blockCode (_findPythonBlockEnd twoDefs 1) =
     join [NL] (linesBetween twoDefs 1
                  (be_endLine (_findPythonBlockEnd twoDefs 1))).
Proof.
  split; [simpl; lia|].
  apply (python_block_extent twoDefs (startLine := 1)). simpl. lia.
Defined.

End BlockExtent.

(** ** C7 and C8: the files of a directory *)
Module Directory.
Import Str ChunkFacts.

Lemma eqb_eq (a b : jsstring) : eqb a b = true <-> a = b.
Proof.
  revert b. induction a as [|x a IH]; intros [|y b]; simpl;
    try (split; (reflexivity || discriminate)).
  rewrite andb_true_iff, N.eqb_eq, IH. split.
  - intros (-> & ->). reflexivity.
  - intros E. injection E as -> ->. auto.
Qed.

Lemma SUPPORTED_EXTENSIONS_table (e : jsstring) (l : Language) :
  SUPPORTED_EXTENSIONS e = Some l <-> In (e, l) extensionTable.
Proof.
  unfold SUPPORTED_EXTENSIONS, extensionTable. split.
  - simpl. intros H.
    repeat match type of H with
           | (if eqb ?a ?b then _ else _) = _ =>
               let E := fresh "E" in
               destruct (eqb a b) eqn:E;
               [apply eqb_eq in E; subst; injection H as <-; tauto|]
           end.
    discriminate.
  - simpl. intros [H|[H|[H|[H|[H|[]]]]]]; injection H as <- <-; reflexivity.
Qed.

(** A directory with a Python file, a text file that cannot be read and a
    TypeScript file in a subdirectory. *)
Definition project : fsnode :=
  Dir [ (u "main.py", File (inl (text ["def f():"; "    pass"]%string)));
        (u "notes.txt", File (inr (u "Error: EACCES")));
        (u "lib", Dir [ (u "app.ts",
                         File (inl (u "function g() { return 1; }"))) ]) ].

(** C7: the language of every chunk is the entry of the table for the
    extension of its file; a file has a language exactly when its extension
    is one of the five of the table; and a file with another extension
    changes nothing in the result, whatever reading it would give: it
    contributes no chunk and raises no error. *)
Theorem language_follows_extension :
  (forall e l, SUPPORTED_EXTENSIONS e = Some l <-> In (e, l) extensionTable)
  /\ (forall directory root chunks,
        parseDirectory directory root = Resolved chunks ->
        Forall (fun c =>
                  SUPPORTED_EXTENSIONS (Path.extname (filePath c))
                  = Some (language c)) chunks)
  /\ (forall before path data after acc,
        SUPPORTED_EXTENSIONS (Path.extname path) = None ->
        parseFiles (before ++ (path, data) :: after) acc
        = parseFiles (before ++ after) acc).
Proof.
  split; [exact SUPPORTED_EXTENSIONS_table|]. split.
  - intros directory root chunks H.
    apply Forall_forall. intros c Hc.
    destruct (@parseDirectory_chunks _ _ _ _ H Hc)
      as (files & path & content & lang & cs & _ & _ & Hl & Hp & Hcs).
    destruct (@parseFile_fields _ _ _ _ _ Hp Hcs) as (-> & ->). exact Hl.
  - intros before path data after acc Hn.
    revert acc. induction before as [|[p d] before IH]; intros acc; simpl.
    + now rewrite Hn.
    + destruct (SUPPORTED_EXTENSIONS (Path.extname p)); [|apply IH].
      destruct d; [|reflexivity].
      destruct (parseFile l j p); [apply IH|reflexivity].
Qed.

Lemma language_follows_extension_witness :
  Forall (fun c =>
            SUPPORTED_EXTENSIONS (Path.extname (filePath c))
            = Some (language c))
         [ mkChunk (u "proj/main.py") python function (u "f") 1 2 None
                   (text ["def f():"; "    pass"]%string);
           mkChunk (u "proj/lib/app.ts") typescript function (u "g") 1 1 None
                   (u "function g() { return 1; }") ]
  /\ parseFiles [ (u "proj/notes.txt", inr (u "Error: EACCES"));
                  (u "proj/lib/app.ts",
                   inl (u "function g() { return 1; }")) ] []
     = parseFiles [ (u "proj/lib/app.ts",
                     inl (u "function g() { return 1; }")) ] [].
Proof.
  split.
  - apply (proj1 (proj2 language_follows_extension) (u "proj") project).
    vm_compute. reflexivity.
  - apply (proj2 (proj2 language_follows_extension) []
                 (u "proj/notes.txt") (inr (u "Error: EACCES"))).
    vm_compute. reflexivity.
Defined.

Lemma project_chunks :
  match parseDirectory (u "proj") project with
  | Resolved chunks =>
      map (fun c => (filePath c, language c, name c)) chunks
      = [ (u "proj/main.py", python, u "f");
          (u "proj/lib/app.ts", typescript, u "g") ]
  | _ => False
  end.
Proof. vm_compute. reflexivity. Qed.

(** The supported files of [files] can all be read. *)
Definition readable (files : list fileEntry) : Prop :=
  Forall (fun f =>
            SUPPORTED_EXTENSIONS (Path.extname (fst f)) = None
            \/ exists content, snd f = inl content) files.

Lemma parseFiles_readable :
  forall before, readable before ->
    forall acc, exists acc',
      forall rest, parseFiles (before ++ rest) acc = parseFiles rest acc'.
Proof.
  induction before as [|[p d] before IH]; intros Hr acc.
  - exists acc. reflexivity.
  - inversion Hr as [|? ? Hd Hr']; subst. simpl in Hd.
    destruct (SUPPORTED_EXTENSIONS (Path.extname p)) as [lang|] eqn:El.
    + destruct Hd as [Hd|(content & ->)]; [discriminate|].
      destruct (parseFile_total lang content p) as (cs & Hp).
      destruct (IH Hr' (acc ++ cs)) as (acc' & Hacc).
      exists acc'. intros rest. simpl. rewrite El, Hp. apply Hacc.
    + destruct (IH Hr' acc) as (acc' & Hacc).
      exists acc'. intros rest. simpl. rewrite El. apply Hacc.
Qed.

(** A project in which the second supported file cannot be read. *)
Definition broken : fsnode :=
  Dir [ (u "a.py", File (inl (text ["def f():"; "    pass"]%string)));
        (u "b.js", File (inr (u "Error: EACCES: permission denied")));
        (u "c.ts", File (inl (u "function g() { return 1; }"))) ].

Lemma first_unreadable :
  forall files path cause lang,
    In (path, inr cause) files ->
    SUPPORTED_EXTENSIONS (Path.extname path) = Some lang ->
    exists before path' cause' lang' after,
      files = before ++ (path', inr cause') :: after
      /\ readable before
      /\ SUPPORTED_EXTENSIONS (Path.extname path') = Some lang'.
Proof.
  induction files as [|[p d] files IH]; intros path cause lang Hin Hl;
    [destruct Hin|].
  destruct (SUPPORTED_EXTENSIONS (Path.extname p)) as [l|] eqn:El.
  - destruct d as [content|c].
    + destruct Hin as [Hin|Hin]; [discriminate|].
      destruct (IH _ _ _ Hin Hl) as (before & p' & c' & l' & after & E & Hr & Hl').
      exists ((p, inl content) :: before), p', c', l', after.
      rewrite E. split; [reflexivity|]. split; [|exact Hl'].
      constructor; [right; simpl; eauto|exact Hr].
    + exists [], p, c, l, files. repeat split; [constructor|exact El].
  - destruct Hin as [Hin|Hin]; [injection Hin as -> ->; congruence|].
    destruct (IH _ _ _ Hin Hl) as (before & p' & c' & l' & after & E & Hr & Hl').
    exists ((p, d) :: before), p', c', l', after.
    rewrite E. split; [reflexivity|]. split; [|exact Hl'].
    constructor; [left; exact El|exact Hr].
Qed.

(** C8: when a supported file of the directory cannot be read,
    parseDirectory is rejected with one error, whose message holds the path
    of the file and the cause.  The file named is the first supported file
    that cannot be read; no chunk is returned, neither of the files before
    it nor of the files after it. *)
Theorem read_failure_aborts directory root files path cause lang :
  getAllFiles directory root [] = Resolved files ->
  In (path, inr cause) files ->
  SUPPORTED_EXTENSIONS (Path.extname path) = Some lang ->
  exists before path' cause' lang' after,
    files = before ++ (path', inr cause') :: after
    /\ readable before
    /\ SUPPORTED_EXTENSIONS (Path.extname path') = Some lang'
    /\ parseDirectory directory root
       = Rejected (u "Failed to read or parse file " ++ path' ++ u ": "
                   ++ cause').
Proof.
  intros Hfiles Hin Hl.
  destruct (first_unreadable _ _ _ Hin Hl)
    as (before & p' & c' & l' & after & E & Hr & Hl').
  exists before, p', c', l', after.
  split; [exact E|]. split; [exact Hr|]. split; [exact Hl'|].
  unfold parseDirectory. rewrite Hfiles, E.
  destruct (parseFiles_readable Hr []) as (acc' & ->).
  simpl. rewrite Hl'. reflexivity.
Qed.

Lemma read_failure_aborts_witness :
  exists before path' cause' lang' after,
    [ (u "proj/a.py", inl (text ["def f():"; "    pass"]%string));
      (u "proj/b.js", inr (u "Error: EACCES: permission denied"));
      (u "proj/c.ts", inl (u "function g() { return 1; }")) ]
    = before ++ (path', inr cause') :: after
    /\ readable before
    /\ SUPPORTED_EXTENSIONS (Path.extname path') = Some lang'
    /\ parseDirectory (u "proj") broken
       = Rejected (u "Failed to read or parse file " ++ path' ++ u ": "
                   ++ cause').
Proof.
  apply (@read_failure_aborts (u "proj") broken _
           (u "proj/b.js") (u "Error: EACCES: permission denied") javascript).
  - vm_compute. reflexivity.
  - simpl. right. left. reflexivity.
  - vm_compute. reflexivity.
Defined.

(** The error of that project, as the caller sees it. *)
Lemma broken_error :
  parseDirectory (u "proj") broken
  = Rejected (u "Failed to read or parse file proj/b.js: Error: EACCES: permission denied").
Proof. vm_compute. reflexivity. Qed.

End Directory.

(** ** C9: a block that is never closed *)
Module Unclosed.
Import Str StrFacts Js JsFacts ChunkFacts.

(** No opening brace in [s]. *)
Definition noBrace (s : jsstring) : bool :=
  forallb (fun c => negb (N.eqb c 123)) s.

(** No quote character in [s]. *)
Definition quoteFree (s : jsstring) : bool :=
  forallb (fun c => negb (isQuote c)) s.

(** After each character of [body], more braces have been opened than
    closed. *)
Definition staysOpen (body : jsstring) : bool :=
  forallb (fun n => (0 <? balance (firstn (S n) body))%Z)
          (List.seq 0 (length body)).

(** The character [q] does not occur in [s]. *)
Definition absent (q : char16) (s : jsstring) : bool :=
  forallb (fun c => negb (N.eqb c q)) s.

(** The text [rest], from the start of a match to the end of the file,
    holds no block that is closed: it has no opening brace at all; or from
    its first opening brace on it has no quote and its braces never
    balance; or, the braces being still open, a quote character comes that
    never occurs again. *)
Inductive anomaly (rest : jsstring) : Prop :=
| NoBody :
    noBrace rest = true -> anomaly rest
| NoClosingBrace (pre body : jsstring) :
    rest = pre ++ body ->
    noBrace pre = true -> quoteFree body = true -> staysOpen body = true ->
    anomaly rest
| UnterminatedString (pre body : jsstring) (q : char16) (tail : jsstring) :
    rest = pre ++ body ++ q :: tail ->
    noBrace pre = true -> body <> [] ->
    quoteFree body = true -> staysOpen body = true ->
    isQuote q = true -> absent q tail = true ->
    anomaly rest.









(** An arrow function without a body, a function whose closing brace is
    missing, and a string that is never closed. *)
Definition oneLiner : jsstring := u "const simple = () => true;".

Definition missingBrace : jsstring :=
  text [ "function f() {"; "  if (x) {"; "    return 1;"; "  }" ]%string.

Definition openString : jsstring :=
  text [ "function f() {"; "  return 'abc }"; "}" ]%string.






(** The three anomalies at work. *)
Lemma anomaly_examples :
  anomaly oneLiner /\ anomaly missingBrace /\ anomaly openString.
Proof.
  split; [|split].
  - apply NoBody. vm_compute. reflexivity.
  - apply (@NoClosingBrace missingBrace (firstn 13 missingBrace)
             (skipn 13 missingBrace)); vm_compute; reflexivity.
  - apply (@UnterminatedString openString
             (firstn 13 openString) (firstn 11 (skipn 13 openString))
             39%N (skipn 25 openString));
      try (vm_compute; reflexivity).
    vm_compute. discriminate.
Qed.

End Unclosed.

(** ** C10: the name of a chunk *)
Module Names.
Import Re ReFacts PatternFacts ChunkFacts.

Lemma Forall2_map_of {A B : Type} (f : A -> B) (P : B -> A -> Prop)
  (l : list A) :
  Forall (fun a => P (f a) a) l -> Forall2 P (map f l) l.
Proof. induction 1; simpl; constructor; assumption. Qed.

(** C10: both extractors return, and their chunks are, in order, the
    chunks of the matches that the loop over the pattern finds: the k-th
    chunk is built from the k-th match and starts on the line of that
    match.  Its name is the identifier captured by that very match: group
    2 of the Python pattern, group 3 of the JavaScript pattern or, when
    that one is undefined, group 5.  The group is there and not empty in
    every match, so the ["unknown"] of the source is never taken; the
    name is made of identifier characters and is part of the matched
    declaration. *)
Theorem chunk_names_are_captured_identifiers (content path : jsstring) :
  (exists ms chunks,
     execAll Py.pattern content = Some ms
     /\ Py._parsePython content path = Some chunks
     /\ Forall2 (fun c m =>
          c = Py.chunkOf content (Str.split NL content) path m
          /\ matchOf Py.pattern content m
          /\ startLine c = lineOf content (index m)
          /\ group 2 m = Some (name c)
          /\ identifier (name c)
          /\ exists before, whole m = before ++ name c) chunks ms)
  /\ (forall lang, exists ms chunks,
        execAll Js.pattern content = Some ms
        /\ Js._parseJavaScriptTypeScript content path lang = Some chunks
        /\ Forall2 (fun c m =>
             c = Js.chunkOf content (Str.split NL content) path lang m
             /\ matchOf Js.pattern content m
             /\ startLine c = lineOf content (index m)
             /\ (group 3 m = Some (name c)
                 \/ (group 3 m = None /\ group 5 m = Some (name c)))
             /\ identifier (name c)
             /\ exists before after,
                  whole m = before ++ name c ++ after) chunks ms).
Proof.
  split.
  - destruct (@execAll_total Py.pattern content python_minLen) as (ms & E).
    exists ms, (map (Py.chunkOf content (Str.split NL content) path) ms).
    split; [exact E|]. split; [unfold Py._parsePython; now rewrite E|].
    apply Forall2_map_of.
    eapply Forall_impl; [|exact (@execAll_matches _ _ _ E)].
    intros m Hm.
    destruct (python_name Hm) as (before & w & Hg & Hid & Hw).
    assert (Hn : name (Py.chunkOf content (Str.split NL content) path m) = w).
    { simpl name. rewrite Hg, (orString_identifier _ Hid). reflexivity. }
    rewrite Hn. repeat (split; [first [reflexivity|assumption]|]).
    exists before. exact Hw.
  - intros lang.
    destruct (@execAll_total Js.pattern content javascript_minLen) as (ms & E).
    exists ms, (map (Js.chunkOf content (Str.split NL content) path lang) ms).
    split; [exact E|].
    split; [unfold Js._parseJavaScriptTypeScript; now rewrite E|].
    apply Forall2_map_of.
    eapply Forall_impl; [|exact (@execAll_matches _ _ _ E)].
    intros m Hm.
    destruct (javascript_name Hm) as (before & w & after & Ho & Hg & Hid & Hw).
    assert (Hn : name (Js.chunkOf content (Str.split NL content) path lang m)
                 = w).
    { simpl name. rewrite Ho. reflexivity. }
    rewrite Hn. repeat (split; [first [reflexivity|assumption]|]).
    exists before, after. exact Hw.
Qed.

End Names.

(** * Further properties of the parser *)

(** ** getAllFiles: the walk over the directory tree *)
Module Walk.
Import Str.






Definition srcTree : fsnode :=
  Dir [ (u "src",
         Dir [ (u "utils",
                Dir [ (u "helper.py",
                       File (inl (u "def helper_function():"))) ]);
               (u "main.py", File (inl (u "def main():"))) ]);
        (u "README", File (inr (u "Error: EACCES"))) ].

(** The tree of the nested-directory test, with one more file. *)
Lemma srcTree_files :
  getAllFiles (u "/tmp/x") srcTree []
  = Resolved [ (u "/tmp/x/src/utils/helper.py",
                inl (u "def helper_function():"));
               (u "/tmp/x/src/main.py", inl (u "def main():"));
               (u "/tmp/x/README", inr (u "Error: EACCES")) ].
Proof. reflexivity. Qed.

End Walk.

(** ** parseDirectory: the loop over the files *)
Module Loop.
Import Str ChunkFacts Directory Walk.

(** The chunks of one enumerated file: none when its extension is not
    supported. *)
Definition chunksOfFile (f : fileEntry) : list CodeChunk :=
  match SUPPORTED_EXTENSIONS (Path.extname (fst f)), snd f with
  | Some lang, inl content =>
      match parseFile lang content (fst f) with
      | Some chunks => chunks
      | None => []
      end
  | _, _ => []
  end.

Lemma parseFiles_concat :
  forall files allChunks,
    readable files ->
    parseFiles files allChunks
    = Resolved (allChunks ++ flat_map chunksOfFile files).
Proof.
  induction files as [|[p d] files IH]; intros acc Hr; simpl.
  - now rewrite app_nil_r.
  - inversion Hr as [|? ? Hd Hr']; subst. simpl in Hd.
    unfold chunksOfFile at 1. simpl fst. simpl snd.
    destruct (SUPPORTED_EXTENSIONS (Path.extname p)) as [lang|] eqn:El.
    + destruct Hd as [Hd|(content & ->)]; [discriminate|].
      destruct (parseFile_total lang content p) as (cs & ->).
      rewrite (IH _ Hr'), <- app_assoc. reflexivity.
    + rewrite (IH _ Hr'). reflexivity.
Qed.

(** When every supported file can be read, parseDirectory resolves to the
    chunks of the files one after the other, in the order of the
    enumeration; the chunks of one file stay together. *)
Theorem chunks_follow_enumeration_order directory root files :
  getAllFiles directory root [] = Resolved files ->
  readable files ->
  parseDirectory directory root = Resolved (flat_map chunksOfFile files).
Proof.
  intros Hf Hr. unfold parseDirectory. rewrite Hf.
  now rewrite parseFiles_concat.
Qed.

Lemma chunks_follow_enumeration_order_witness :
  parseDirectory (u "proj") project
  = Resolved (flat_map chunksOfFile
                [ (u "proj/main.py",
                   inl (text ["def f():"; "    pass"]%string));
                  (u "proj/notes.txt", inr (u "Error: EACCES"));
                  (u "proj/lib/app.ts",
                   inl (u "function g() { return 1; }")) ]).
Proof.
  apply (@chunks_follow_enumeration_order (u "proj") project).
  - vm_compute. reflexivity.
  - constructor; [right; eexists; reflexivity|].
    constructor; [left; reflexivity|].
    constructor; [right; eexists; reflexivity|constructor].
Defined.




(** A directory in which no file has a supported extension, an empty
    directory included, gives no chunk and no error, even when its files
    cannot be read: they are never opened. *)
Theorem unsupported_files_only directory root files :
  getAllFiles directory root [] = Resolved files ->
  Forall (fun f => SUPPORTED_EXTENSIONS (Path.extname (fst f)) = None) files ->
  parseDirectory directory root = Resolved [].
Proof.
  intros Hf Hu. unfold parseDirectory. rewrite Hf. clear Hf.
  generalize (@nil CodeChunk). intros acc.
  induction Hu as [|[p d] t Hp Ht IH]; [reflexivity|].
  simpl in *. rewrite Hp. exact IH.
Qed.

Definition docsOnly : fsnode :=
  Dir [ (u "readme.txt", File (inr (u "Error: EACCES")));
        (u "assets", Dir []);
        (u "config.json", File (inl (u "{}"))) ].

Lemma unsupported_files_only_witness :
  parseDirectory (u "d") docsOnly = Resolved [].
Proof.
  apply (@unsupported_files_only (u "d") docsOnly
           [ (u "d/readme.txt", inr (u "Error: EACCES"));
             (u "d/config.json", inl (u "{}")) ]).
  - vm_compute. reflexivity.
  - constructor; [reflexivity|]. constructor; [reflexivity|constructor].
Defined.

End Loop.

(** ** _isPythonMethod: the enclosing class *)
Module Enclosing.
Import Str Py.

Lemma methodLoop_spec (indent : nat) :
  forall before,
    methodLoop indent before = true
    <-> exists k,
          k < length before
          /\ indentOf (nth k before []) < indent
          /\ startsWith (u "class ") (trim (nth k before [])) = true
          /\ forall j, j < k -> indent <= indentOf (nth j before []).
Proof.
  induction before as [|prevLine earlier IH]; cbn [methodLoop].
  - split; [discriminate|]. intros (k & Hk & _). cbn [length] in Hk. lia.
  - destruct (indentOf prevLine <? indent) eqn:Elt.
    + rewrite andb_true_r. apply Nat.ltb_lt in Elt.
      destruct (startsWith (u "class ") (trim prevLine)) eqn:Ec.
      * split; [intros _|reflexivity].
        exists 0. cbn [nth length].
        split; [lia|]. split; [exact Elt|]. split; [exact Ec|].
        intros j Hj. lia.
      * split; [discriminate|].
        intros ([|k] & Hk & Hi & Hs & Hall); cbn [nth length] in *.
        -- congruence.
        -- specialize (Hall 0). cbn [nth] in Hall. lia.
    + rewrite andb_false_r. apply Nat.ltb_ge in Elt. rewrite IH. split.
      * intros (k & Hk & Hi & Hs & Hall). exists (S k). cbn [nth length].
        split; [lia|]. split; [exact Hi|]. split; [exact Hs|].
        intros [|j] Hj; [exact Elt|]. apply Hall. lia.
      * intros ([|k] & Hk & Hi & Hs & Hall); cbn [nth length] in *; [lia|].
        exists k. split; [lia|]. split; [exact Hi|]. split; [exact Hs|].
        intros j Hj. apply (Hall (S j)). lia.
Qed.

Lemma isPythonMethod_spec (lines : list jsstring)
  (startLineIndex : nat) :
  _isPythonMethod lines startLineIndex = true
  <-> exists i,
        i < startLineIndex
        /\ indentOf (nth i lines []) < indentOf (nth startLineIndex lines [])
        /\ startsWith (u "class ") (trim (nth i lines [])) = true
        /\ forall j, i < j < startLineIndex ->
                     indentOf (nth startLineIndex lines [])
                     <= indentOf (nth j lines []).
Proof.
  unfold _isPythonMethod.
  destruct (Nat.eqb startLineIndex 0) eqn:E0.
  { apply Nat.eqb_eq in E0. split; [discriminate|].
    intros (i & Hi & _). lia. }
  apply Nat.eqb_neq in E0.
  destruct (Nat.eqb (indentOf (nth startLineIndex lines [])) 0) eqn:Ei.
  { apply Nat.eqb_eq in Ei. split; [discriminate|].
    intros (i & _ & Hlt & _). lia. }
  apply Nat.eqb_neq in Ei.
  assert (Hs : startLineIndex < length lines).
  { destruct (Nat.lt_ge_cases startLineIndex (length lines)) as [H|H];
      [exact H|].
    rewrite nth_overflow in Ei by exact H. unfold indentOf in Ei.
    simpl in Ei. lia. }
  assert (Hlen : length (firstn startLineIndex lines) = startLineIndex)
    by (apply firstn_length_le; lia).
  assert (Hnth : forall k, k < startLineIndex ->
             nth k (rev (firstn startLineIndex lines)) []
             = nth (startLineIndex - S k) lines []).
  { intros k Hk. rewrite rev_nth by lia. rewrite Hlen.
    rewrite nth_firstn.
    replace (startLineIndex - S k <? startLineIndex) with true
      by (symmetry; apply Nat.ltb_lt; lia).
    reflexivity. }
  rewrite methodLoop_spec, length_rev, Hlen. split.
  - intros (k & Hk & Hi & Hc & Hall).
    rewrite Hnth in Hi, Hc by exact Hk.
    exists (startLineIndex - S k). repeat split; try assumption; try lia.
    intros j Hj.
    specialize (Hall (startLineIndex - S j)).
    rewrite Hnth in Hall by lia.
    replace (startLineIndex - S (startLineIndex - S j)) with j in Hall by lia.
    apply Hall. lia.
  - intros (i & Hi & Hlt & Hc & Hall).
    exists (startLineIndex - S i).
    rewrite Hnth by lia.
    replace (startLineIndex - S (startLineIndex - S i)) with i by lia.
    repeat split; try assumption; try lia.
    intros j Hj. rewrite Hnth by lia. apply Hall. lia.
Qed.

(** _isPythonMethod, as _parsePython calls it for the declaration on line
    [startLine]: the answer is true exactly when, walking up from that line,
    the first line indented less than the declaration starts with [class ]
    once trimmed.  An empty line counts as indented less (its indentation is
    0), so it ends the walk with the answer false. *)
Theorem isPythonMethod_nearest_outdent (lines : list jsstring)
  (startLine : nat) :
  _isPythonMethod lines (startLine - 1) = true
  <-> exists k,
        1 <= k < startLine
        /\ indentOf (PyFacts.lineAt lines k)
           < indentOf (PyFacts.lineAt lines startLine)
        /\ startsWith (u "class ") (trim (PyFacts.lineAt lines k)) = true
        /\ forall j, k < j < startLine ->
                     indentOf (PyFacts.lineAt lines startLine)
                     <= indentOf (PyFacts.lineAt lines j).
Proof.
  unfold PyFacts.lineAt. rewrite isPythonMethod_spec. split.
  - intros (i & Hi & Hlt & Hc & Hall). exists (S i).
    replace (S i - 1) with i by lia.
    split; [lia|]. split; [exact Hlt|]. split; [exact Hc|].
    intros j Hj. specialize (Hall (j - 1)). apply Hall. lia.
  - intros (k & Hk & Hlt & Hc & Hall). exists (k - 1).
    split; [lia|]. split; [exact Hlt|]. split; [exact Hc|].
    intros j Hj. specialize (Hall (S j)).
    replace (S j - 1) with j in Hall by lia. apply Hall. lia.
Qed.

(** So a declaration that follows an empty line is never taken for a
    method, whatever stands above the empty line. *)
Theorem empty_line_hides_the_class (lines : list jsstring)
  (startLineIndex : nat) :
  0 < startLineIndex ->
  nth (startLineIndex - 1) lines [] = [] ->
  _isPythonMethod lines startLineIndex = false.
Proof.
  intros Hs He.
  destruct (_isPythonMethod lines startLineIndex) eqn:E; [|reflexivity].
  apply isPythonMethod_spec in E.
  destruct E as (i & Hi & Hlt & Hc & Hall).
  assert (Hcase : i = startLineIndex - 1 \/ i < startLineIndex - 1) by lia.
  destruct Hcase as [-> | Hb].
  - rewrite He in Hc. discriminate.
  - specialize (Hall (startLineIndex - 1)). rewrite He in Hall.
    unfold indentOf at 2 in Hall. simpl in Hall. lia.
Qed.

(** Two methods of a class, the second after an empty line. *)
Definition spacedMethods : list jsstring :=
  [ u "class A:"; u "    def f(self):"; u "        pass"; [];
    u "    def g(self):"; u "        pass" ].

Lemma empty_line_hides_the_class_witness :
  _isPythonMethod spacedMethods 1 = true
  /\ _isPythonMethod spacedMethods 4 = false.
Proof.
  split; [reflexivity|].
  apply (@empty_line_hides_the_class spacedMethods 4); [lia|reflexivity].
Defined.

End Enclosing.

(** ** The order of the chunks of a file *)
Module Order.
Import Str StrFacts Re ReFacts ChunkFacts.

(** Each match starts at or after the end of the one before. *)
Fixpoint chained (lastIndex : nat) (ms : list rmatch) : Prop :=
  match ms with
  | [] => True
  | m :: more => lastIndex <= index m /\ chained (stop m) more
  end.

Lemma execLoop_chained r content :
  forall fuel lastIndex ms,
    execLoop fuel r content lastIndex = Some ms -> chained lastIndex ms.
Proof.
  induction fuel as [|fuel IH]; intros li ms H; simpl in H; [discriminate|].
  destruct (exec r content li) as [m|] eqn:Ee.
  - destruct (execLoop fuel r content (stop m)) as [ms'|] eqn:El;
      [|discriminate].
    injection H as <-. simpl. split.
    + now apply exec_matchOf in Ee.
    + eapply IH; eassumption.
  - injection H as <-. exact I.
Qed.

Lemma chained_after r content :
  forall ms lastIndex,
    Forall (matchOf r content) ms -> chained lastIndex ms ->
    Forall (fun m => lastIndex <= index m) ms.
Proof.
  induction ms as [|m ms IH]; intros li Hm Hc; [constructor|].
  inversion Hm as [|? ? Hm1 Hm2]; subst. destruct Hc as (Hli & Hc).
  constructor; [exact Hli|].
  apply matchOf_bounds in Hm1. destruct Hm1 as (Hlo & _).
  eapply Forall_impl; [|apply (IH (stop m) Hm2 Hc)].
  intros m' Hm'. simpl in Hm'. lia.
Qed.

(** A match of a pattern that consumes something ends after it starts, so
    the later matches start strictly after it. *)
Lemma execAll_increasing r content ms :
  0 < minLen r ->
  execAll r content = Some ms ->
  forall i j, i < j < length ms ->
    stop (nth i ms (mkMatch 0 0 [] [])) <= index (nth j ms (mkMatch 0 0 [] []))
    /\ index (nth i ms (mkMatch 0 0 [] []))
       < index (nth j ms (mkMatch 0 0 [] [])).
Proof.
  intros Hmin H.
  pose proof (execAll_matches _ _ H) as Hm.
  pose proof (execLoop_chained _ _ _ _ H) as Hc.
  clear H. set (d := mkMatch 0 0 [] []). clearbody d.
  revert Hm Hc. generalize 0 as li.
  induction ms as [|m ms IH]; intros li Hm Hc i j Hij; [simpl in Hij; lia|].
  inversion Hm as [|? ? Hm1 Hm2]; subst. destruct Hc as (Hli & Hc).
  destruct j as [|j]; [lia|].
  destruct i as [|i].
  - simpl nth.
    pose proof (chained_after _ Hm2 Hc) as Hafter.
    rewrite Forall_forall in Hafter.
    assert (Hin : In (nth j ms d) ms)
      by (apply nth_In; simpl in Hij; lia).
    specialize (Hafter _ Hin). cbv beta in Hafter.
    apply matchOf_bounds in Hm1. lia.
  - simpl nth. apply (IH (stop m) Hm2 Hc). simpl in Hij. lia.
Qed.

Lemma parseFile_startLines lang content path chunks :
  parseFile lang content path = Some chunks ->
  exists r ms,
    0 < minLen r /\ execAll r content = Some ms
    /\ map startLine chunks = map (fun m => lineOf content (index m)) ms.
Proof.
  intros H.
  assert (Hcase :
    (lang = python /\ Py._parsePython content path = Some chunks)
    \/ Js._parseJavaScriptTypeScript content path lang = Some chunks)
    by (destruct lang; simpl in H; auto).
  destruct Hcase as [(-> & Hp)|Hj].
  - unfold Py._parsePython in Hp.
    destruct (execAll Py.pattern content) as [ms|] eqn:E; [|discriminate].
    injection Hp as <-. exists Py.pattern, ms.
    split; [exact python_minLen|]. split; [exact E|].
    rewrite map_map. reflexivity.
  - unfold Js._parseJavaScriptTypeScript in Hj.
    destruct (execAll Js.pattern content) as [ms|] eqn:E; [|discriminate].
    injection Hj as <-. exists Js.pattern, ms.
    split; [exact javascript_minLen|]. split; [exact E|].
    rewrite map_map. reflexivity.
Qed.

(** The chunks of a file come in the order of their declarations: along the
    list returned by either extractor, [startLine] never decreases. *)
Theorem chunks_come_in_line_order lang content path chunks :
  parseFile lang content path = Some chunks ->
  forall i j, i <= j < length chunks ->
    nth i (map startLine chunks) 0 <= nth j (map startLine chunks) 0.
Proof.
  intros H i j Hij.
  destruct (parseFile_startLines _ _ _ H) as (r & ms & Hmin & He & Hs).
  assert (Hlen : length chunks = length ms).
  { rewrite <- (length_map startLine), Hs. apply length_map. }
  rewrite Hs.
  destruct (Nat.eq_dec i j) as [->|Hne]; [lia|].
  assert (Hlt : i < j < length ms) by lia.
  destruct (@execAll_increasing r content ms Hmin He i j Hlt) as (_ & Hidx).
  rewrite !(nth_indep _ 0 (lineOf content (index (mkMatch 0 0 [] []))))
    by (rewrite length_map; lia).
  rewrite !(map_nth (fun m => lineOf content (index m))).
  apply lineOf_mono. lia.
Qed.

Lemma chunks_come_in_line_order_witness :
  nth 0 (map startLine
           [ mkChunk (u "a.js") javascript function (u "f") 1 1 None
                     (u "function f() {} function g() {}");
             mkChunk (u "a.js") javascript function (u "g") 1 1 None
                     (u "function f() {} function g() {}") ]) 0
  <= nth 1 (map startLine
              [ mkChunk (u "a.js") javascript function (u "f") 1 1 None
                        (u "function f() {} function g() {}");
                mkChunk (u "a.js") javascript function (u "g") 1 1 None
                        (u "function f() {} function g() {}") ]) 0.
Proof.
  apply (@chunks_come_in_line_order javascript
           (u "function f() {} function g() {}") (u "a.js")).
  - vm_compute. reflexivity.
  - simpl. lia.
Defined.

End Order.

(** ** Python chunks do not overlap *)
Module Disjoint.
Import Str StrFacts Re ReFacts PatternFacts ChunkFacts Py PyFacts.

Lemma lineOf_after_NL (content : jsstring) (j : nat) :
  nth_error content j = Some NL -> lineOf content (S j) = S (lineOf content j).
Proof.
  intros H. unfold lineOf, prefix.
  rewrite (@Classification.firstn_S_nth_error _ _ _ _ H).
  pose proof (split_app_length NL (firstn j content) [NL]) as Hl.
  simpl in Hl. lia.
Qed.

Lemma trimStart_keeps_last (x : jsstring) (c : char16) :
  isSpace c = false -> trimStart (x ++ [c]) <> [].
Proof.
  intros Hc. induction x as [|y x IH]; simpl.
  - rewrite Hc. discriminate.
  - destruct (isSpace y); [exact IH|discriminate].
Qed.

Lemma isBlank_first_char (c : char16) (l : jsstring) :
  isSpace c = false -> isBlank (c :: l) = false.
Proof.
  intros Hc. unfold isBlank, trim, trimEnd. simpl trimStart. rewrite Hc.
  simpl rev.
  destruct (trimStart (rev l ++ [c])) as [|y t] eqn:E.
  - now apply trimStart_keeps_last in E.
  - destruct (rev (y :: t)) eqn:Er; [|reflexivity].
    apply (f_equal (@length _)) in Er. rewrite length_rev in Er.
    discriminate.
Qed.

(** In a file with line feeds only, the match of a declaration starts its
    line: it is at position 0 or right after a line feed, and its line
    begins with the first letter of the keyword. *)
Lemma declaration_starts_its_line content m :
  Classification.onlyLineFeeds content ->
  matchOf pattern content m ->
  (index m = 0 \/ nth_error content (index m - 1) = Some NL)
  /\ exists c l,
       lineAt (split NL content) (lineOf content (index m)) = c :: l
       /\ isSpace c = false.
Proof.
  intros Hlf (Hi & st' & H & _).
  apply Sem_Cat_inv in H. destruct H as (s1 & Hbol & H).
  apply Sem_Bol_inv in Hbol. destruct Hbol as (-> & Hbol).
  apply Sem_Cat_inv in H. destruct H as (s2 & Hkw & _).
  apply Sem_Cap_inv in Hkw. destruct Hkw as (s3 & Hkw & _).
  apply Classification.keyword_first_char in Hkw.
  destruct Hkw as (c & r & Hr & Hc).
  simpl in Hr, Hbol.
  assert (Hnl : N.eqb c NL = false).
  { destruct (N.eqb c NL) eqn:E; [|reflexivity].
    apply N.eqb_eq in E. subst c. discriminate. }
  destruct (@Classification.split_hd_cons c r Hnl) as (l & Hhd).
  assert (Hprev : index m = 0 \/ nth_error content (index m - 1) = Some NL).
  { destruct (index m) as [|j] eqn:Ej; [now left|right].
    simpl in Hbol. replace (S j - 1) with j by lia.
    destruct (nth_error content j) as [p|] eqn:Ep;
      [|apply nth_error_None in Ep; lia].
    f_equal. unfold Classification.onlyLineFeeds in Hlf.
    rewrite Forall_forall in Hlf. apply Hlf; [|exact Hbol].
    eapply nth_error_In; eassumption. }
  split; [exact Hprev|].
  assert (Hlast : last (split NL (firstn (index m) content)) [] = []).
  { destruct Hprev as [-> | Hp]; [reflexivity|].
    destruct (index m) as [|j] eqn:Ej; [reflexivity|].
    replace (S j - 1) with j in Hp by lia.
    rewrite (@Classification.firstn_S_nth_error _ _ _ _ Hp).
    apply Classification.split_last_after_NL. }
  exists c, l. split; [|exact Hc].
  unfold lineAt, lineOf, prefix.
  rewrite <- (firstn_skipn (index m) content) at 2.
  rewrite Classification.split_last_line, Hlast, Hr, Hhd. reflexivity.
Qed.

(** Every non-blank line of a block after its first is indented deeper than
    the declaration. *)
Lemma block_lines_are_deeper (lines : list jsstring) (startLine : nat) :
  1 <= startLine <= length lines ->
  forall k,
    startLine < k <= be_endLine (_findPythonBlockEnd lines startLine) ->
    isBlank (lineAt lines k) = false ->
    indentOf (lineAt lines startLine) < indentOf (lineAt lines k).
Proof.
  intros Hs k Hk Hnb.
  unfold _findPythonBlockEnd in Hk. simpl be_endLine in Hk.
  replace (startLine - 1 + 1) with startLine in Hk by lia.
  assert (Hinit : match nth_error lines (startLine - 1) with
                  | Some l => leadingSpaces l
                  | None => 0
                  end = indentOf (lineAt lines startLine)).
  { unfold lineAt.
    destruct (nth_error lines (startLine - 1)) as [l|] eqn:En.
    - rewrite (nth_error_nth _ _ _ En). apply leadingSpaces_indentOf.
    - apply nth_error_None in En. lia. }
  rewrite Hinit in Hk.
  destruct (blockLoop_spec (indentOf (lineAt lines startLine))
              (skipn startLine lines) (i := startLine) (e0 := startLine))
    as (A & _ & C & _); [lia|].
  rewrite length_skipn in A.
  unfold lineAt in *.
  specialize (C (k - 1 - startLine)). rewrite nth_skipn in C.
  replace (startLine + (k - 1 - startLine)) with (k - 1) in C by lia.
  apply C; [rewrite length_skipn; lia|lia|exact Hnb].
Qed.

(** In a file whose only line terminator is the line feed, the chunks of
    _parsePython do not overlap: each one ends before the next one
    starts. *)
Theorem python_chunks_do_not_overlap content path chunks :
  Classification.onlyLineFeeds content ->
  _parsePython content path = Some chunks ->
  forall d i j, i < j < length chunks ->
    endLine (nth i chunks d) < startLine (nth j chunks d).
Proof.
  intros Hlf H d i j Hij. unfold _parsePython in H.
  destruct (execAll pattern content) as [ms|] eqn:E; [|discriminate].
  injection H as <-.
  rewrite length_map in Hij.
  set (d0 := mkMatch 0 0 [] []).
  rewrite !(nth_indep _ d (chunkOf content (split NL content) path d0))
    by (rewrite length_map; lia).
  rewrite !map_nth.
  destruct (@Order.execAll_increasing pattern content ms python_minLen E
              i j Hij) as (_ & Hidx).
  fold d0 in Hidx.
  pose proof (execAll_matches _ _ E) as Hm. rewrite Forall_forall in Hm.
  assert (Hm1 : matchOf pattern content (nth i ms d0))
    by (apply Hm, nth_In; lia).
  assert (Hm2 : matchOf pattern content (nth j ms d0))
    by (apply Hm, nth_In; lia).
  set (m1 := nth i ms d0) in *. set (m2 := nth j ms d0) in *.
  unfold chunkOf. cbn [startLine endLine].
  destruct (declaration_starts_its_line Hlf Hm2)
    as ([H0 | Hnl] & c & l & Hline & Hc); [lia|].
  assert (Hstart : lineOf content (index m1) < lineOf content (index m2)).
  { replace (index m2) with (S (index m2 - 1)) by lia.
    rewrite (lineOf_after_NL _ _ Hnl).
    pose proof (@lineOf_mono content (index m1) (index m2 - 1)). lia. }
  destruct (Nat.lt_ge_cases
              (be_endLine (_findPythonBlockEnd (split NL content)
                             (lineOf content (index m1))))
              (lineOf content (index m2))) as [Hlt|Hge]; [exact Hlt|].
  exfalso.
  pose proof (lineOf_pos content (index m1)) as H1.
  pose proof (lineOf_le_lines content (index m1)) as H2.
  pose proof (@block_lines_are_deeper (split NL content)
                (lineOf content (index m1)) (conj H1 H2)
                (lineOf content (index m2)) (conj Hstart Hge)) as Hdeep.
  rewrite Hline in Hdeep.
  specialize (Hdeep (@isBlank_first_char c l Hc)).
  unfold indentOf at 2 in Hdeep. simpl in Hdeep. rewrite Hc in Hdeep.
  simpl in Hdeep. lia.
Qed.

Lemma python_chunks_do_not_overlap_witness :
  endLine (nth 0 [ mkChunk (u "a.py") python class (u "A") 1 3 None
                     (text ["class A:"; "    def f(self):";
                            "        pass"]%string);
                   mkChunk (u "a.py") python function (u "g") 4 5 None
                     (text ["def g():"; "    pass"]%string) ]
                 (mkChunk [] python other [] 0 0 None []))
  < startLine (nth 1 [ mkChunk (u "a.py") python class (u "A") 1 3 None
                         (text ["class A:"; "    def f(self):";
                                "        pass"]%string);
                       mkChunk (u "a.py") python function (u "g") 4 5 None
                         (text ["def g():"; "    pass"]%string) ]
                     (mkChunk [] python other [] 0 0 None [])).
Proof.
  apply (@python_chunks_do_not_overlap Classification.classWithMethod
           (u "a.py")).
  - unfold Classification.onlyLineFeeds. apply Forall_forall.
    intros c Hin Hlt.
    vm_compute in Hin.
    repeat (destruct Hin as [<-|Hin]; [try reflexivity; discriminate|]).
    destruct Hin.
  - vm_compute. reflexivity.
  - simpl. lia.
Defined.

End Disjoint.

(** ** The kinds of JavaScript chunks *)
Module Kinds.
Import Str Re ReFacts PatternFacts ChunkFacts Js.

Lemma Sem_Opt_inv r a b : Sem (Opt r) a b -> b = a \/ Sem r a b.
Proof. inversion 1; subst; auto. Qed.

Lemma reads_nil a : reads a [] a.
Proof. split; simpl; [reflexivity|lia]. Qed.

Lemma Sem_chr_reads c a b : Sem (chr c) a b -> reads a [c] b.
Proof.
  intros H. apply Sem_Chr_inv in H. destruct H as (c' & E & Hp & P & _).
  apply N.eqb_eq in Hp. subst c'. split; simpl; [exact E|lia].
Qed.

(** A literal reads itself. *)
Lemma Sem_lit s : forall a b, Sem (lit s) a b -> reads a s b.
Proof.
  induction s as [|c s IH]; intros a b H.
  - inversion H; subst. apply reads_nil.
  - destruct s as [|c2 s].
    + now apply Sem_chr_reads.
    + apply Sem_Cat_inv in H. destruct H as (x & H1 & H2).
      apply Sem_chr_reads in H1. apply IH in H2.
      exact (reads_trans H1 H2).
Qed.

(** [a] comes before [b] in the input. *)
Definition before (a b : state) : Prop := exists w, rest a = w ++ rest b.

Lemma Sem_before r a b : Sem r a b -> before a b.
Proof.
  intros H. apply Sem_consumes in H. destruct H as (w & E & _). now exists w.
Qed.

Lemma before_trans a b c : before a b -> before b c -> before a c.
Proof.
  intros (w1 & E1) (w2 & E2). exists (w1 ++ w2).
  now rewrite E1, E2, app_assoc.
Qed.

Lemma consumed_ends_with a b c w :
  reads a (consumed a c) c -> before a b -> reads b w c ->
  exists z, consumed a c = z ++ w.
Proof.
  intros (E & _) (z & Ez) (Ew & _). exists z.
  rewrite Ez, Ew, app_assoc in E. now apply app_inv_tail in E.
Qed.

(** What the keyword group of the first alternative holds. *)
Lemma keyword_group a b :
  Sem (Or (seq [lit (u "function"); Opt (chr 42%N)]) (lit (u "class"))) a b ->
  consumed a b = u "class" \/ consumed a b = u "function"
  \/ consumed a b = u "function*".
Proof.
  intros H. apply Sem_Or_inv in H. destruct H as [H|H].
  - right. apply Sem_Cat_inv in H. destruct H as (x & H1 & H2).
    apply Sem_lit in H1. apply Sem_Opt_inv in H2. destruct H2 as [-> | H2].
    + left. now apply reads_consumed.
    + right. apply Sem_chr_reads in H2.
      apply reads_consumed. exact (reads_trans H1 H2).
  - left. apply Sem_lit in H. now apply reads_consumed.
Qed.

Lemma declarator_group a b :
  Sem (Or (lit (u "const")) (Or (lit (u "let")) (lit (u "var")))) a b ->
  consumed a b = u "const" \/ consumed a b = u "let"
  \/ consumed a b = u "var".
Proof.
  intros H. apply Sem_Or_inv in H. destruct H as [H|H];
    [|apply Sem_Or_inv in H; destruct H as [H|H]];
    apply Sem_lit, reads_consumed in H; auto.
Qed.

Ltac split_cat H s H1 :=
  apply Sem_Cat_inv in H; destruct H as (s & H1 & H).

(** What a match of the pattern tells about the kind of the chunk. *)
Lemma match_kind content lines path lang m :
  matchOf pattern content m ->
  (group 2 m = Some (u "class")
   /\ chunkType (chunkOf content lines path lang m) = class)
  \/ ((group 2 m = Some (u "function") \/ group 2 m = Some (u "function*"))
      /\ chunkType (chunkOf content lines path lang m) = function)
  \/ (group 2 m = None
      /\ (group 4 m = Some (u "const") \/ group 4 m = Some (u "let")
          \/ group 4 m = Some (u "var"))
      /\ chunkType (chunkOf content lines path lang m) = arrow_function).
Proof.
  intros (_ & st' & H & _ & Hg & Hw).
  unfold chunkOf. cbn [chunkType]. unfold group. rewrite Hg, Hw. clear Hg Hw.
  change (firstn (pos st' - index m) (skipn (index m) content))
    with (consumed (startState content (index m)) st').
  set (s0 := startState content (index m)) in *.
  assert (Hc0 : caps s0 = []) by reflexivity. clearbody s0.
  apply Sem_Or_inv in H. destruct H as [H|H].
  - split_cat H s1 H1. split_cat H s2 H2. split_cat H s3 H3.
    split_cat H s4 H4. split_cat H s5 H5.
    apply Sem_Cap_inv in H. destruct H as (s6 & Hid & ->).
    pose proof (Sem_noCap Hid eq_refl) as Hc6.
    pose proof (Sem_noCap H5 eq_refl) as Hc5.
    apply Sem_Cap_inv in H4. destruct H4 as (s4' & Hkw & ->).
    simpl caps. rewrite Hc6, Hc5. simpl caps. simpl get.
    destruct (keyword_group Hkw) as [-> | [-> | ->]].
    + left. split; reflexivity.
    + right. left. split; [left; reflexivity|reflexivity].
    + right. left. split; [right; reflexivity|reflexivity].
  - right. right.
    pose proof (Sem_reads H) as Hall.
    split_cat H s1 H1. split_cat H s2 H2. split_cat H s3 H3.
    split_cat H s4 H4.
    pose proof (Sem_noCap H eq_refl) as Hcaps.
    pose proof (before_trans (Sem_before H1)
                  (before_trans (Sem_before H2)
                     (before_trans (Sem_before H3) (Sem_before H4)))) as Hb.
    split_cat H t1 T1. split_cat H t2 T2. split_cat H t3 T3.
    split_cat H t4 T4. split_cat H t5 T5. split_cat H t6 T6.
    split_cat H t7 T7. split_cat H t8 T8. split_cat H t9 T9.
    pose proof (before_trans Hb
                  (before_trans (Sem_before T1)
                  (before_trans (Sem_before T2)
                  (before_trans (Sem_before T3)
                  (before_trans (Sem_before T4)
                  (before_trans (Sem_before T5)
                  (before_trans (Sem_before T6)
                  (before_trans (Sem_before T7)
                  (before_trans (Sem_before T8) (Sem_before T9))))))))))
      as Hb'.
    apply Sem_lit in H.
    destruct (consumed_ends_with Hall Hb' H) as (z & ->).
    rewrite (Docstring.includes_app_l (u "=>") z (u "=>") eq_refl).
    apply Sem_Cap_inv in H4. destruct H4 as (s4' & Hid & ->).
    pose proof (Sem_noCap Hid eq_refl) as Hc4.
    pose proof (Sem_noCap H3 eq_refl) as Hc3.
    apply Sem_Cap_inv in H2. destruct H2 as (s2' & Hkw & ->).
    pose proof (Sem_noCap Hkw eq_refl) as Hc2.
    pose proof (Sem_noCap H1 eq_refl) as Hc1.
    rewrite Hcaps. simpl caps. rewrite Hc4, Hc3. simpl caps.
    rewrite Hc2, Hc1, Hc0. simpl get.
    split; [reflexivity|]. split; [|reflexivity].
    destruct (declarator_group Hkw) as [-> | [-> | ->]]; auto.
Qed.

(** Every chunk of a JavaScript or TypeScript file is a class, a function
    or an arrow function, by the keyword of the match it is built from:
    [class] gives a
    class, [function] and [function*] a function, [const], [let] and [var]
    an arrow function.  No chunk is a method or of kind [other]. *)
Theorem javascript_chunk_kinds content path lang chunks :
  _parseJavaScriptTypeScript content path lang = Some chunks ->
  Forall (fun c =>
    exists m,
      matchOf pattern content m
      /\ c = chunkOf content (split NL content) path lang m
      /\ ((group 2 m = Some (u "class") /\ chunkType c = class)
          \/ ((group 2 m = Some (u "function")
               \/ group 2 m = Some (u "function*"))
              /\ chunkType c = function)
          \/ (group 2 m = None
              /\ (group 4 m = Some (u "const") \/ group 4 m = Some (u "let")
                  \/ group 4 m = Some (u "var"))
              /\ chunkType c = arrow_function))) chunks.
Proof.
  intros H. apply Forall_forall. intros c Hc.
  destruct (@javascript_chunks _ _ _ _ _ H Hc) as (m & Hm & ->).
  exists m. split; [exact Hm|]. split; [reflexivity|]. now apply match_kind.
Qed.

Definition threeKinds : jsstring :=
  text [ "export async function* gen() {}";
         "let twice = async (x) => x * 2";
         "class Box {}" ]%string.

Lemma javascript_chunk_kinds_witness :
  option_map (map (fun c => (name c, chunkType c)))
             (_parseJavaScriptTypeScript threeKinds (u "k.ts") typescript)
  = Some [ (u "gen", function); (u "twice", arrow_function);
           (u "Box", class) ]
  /\ match _parseJavaScriptTypeScript threeKinds (u "k.ts") typescript with
     | Some chunks =>
         Forall (fun c =>
           exists m,
             matchOf pattern threeKinds m
             /\ c = chunkOf threeKinds (split NL threeKinds) (u "k.ts")
                            typescript m
             /\ ((group 2 m = Some (u "class") /\ chunkType c = class)
                 \/ ((group 2 m = Some (u "function")
                      \/ group 2 m = Some (u "function*"))
                     /\ chunkType c = function)
                 \/ (group 2 m = None
                     /\ (group 4 m = Some (u "const")
                         \/ group 4 m = Some (u "let")
                         \/ group 4 m = Some (u "var"))
                     /\ chunkType c = arrow_function))) chunks
     | None => False
     end.
Proof.
  split; [vm_compute; reflexivity|].
  destruct (_parseJavaScriptTypeScript threeKinds (u "k.ts") typescript)
    as [chunks|] eqn:E.
  - apply (@javascript_chunk_kinds threeKinds (u "k.ts") typescript chunks E).
  - vm_compute in E. discriminate.
Defined.

End Kinds.

(** ** _findJSBlockEnd: where a closed block ends *)
Module Scan.
Import Str StrFacts Js JsFacts.

(** A block has been opened and is not closed yet. *)
Definition opened (st : scan) : Prop :=
  firstBraceFound st = true /\ (1 <= openBraces st)%Z.

Lemma step_opened (st : scan) (c : char16) :
  opened st ->
  (closed (step st c) = false /\ opened (step st c))
  \/ (closed (step st c) = true /\ c = 125%N /\ inString st = None).
Proof.
  intros (Hf & Ho). unfold step.
  destruct (inString st) as [q|] eqn:Es.
  - left. destruct (N.eqb c q && negb (escape st));
      (split; [apply closed_false; simpl; lia|split; simpl; [exact Hf|lia]]).
  - destruct (isQuote c) eqn:Eq.
    { left. split; [apply closed_false; simpl; lia|split; simpl; [exact Hf|lia]]. }
    destruct (N.eqb c 123) eqn:Eo.
    { left. split; [apply closed_false; simpl; lia|split; simpl; [reflexivity|lia]]. }
    destruct (N.eqb c 125) eqn:Ec.
    + apply N.eqb_eq in Ec. subst c.
      destruct (Z.eq_dec (openBraces st) 1) as [E1|E1].
      * right. split; [|auto]. unfold closed. simpl. rewrite Hf, E1. reflexivity.
      * left. split; [apply closed_false; simpl; lia|split; simpl; [exact Hf|lia]].
    + left. split; [apply closed_false; lia|split; [exact Hf|lia]].
Qed.

Lemma scanLoop_opened :
  forall s st i j,
    opened st -> scanLoop st i s = Some j ->
    i <= j /\ nth_error s (j - i) = Some 125%N.
Proof.
  induction s as [|c t IH]; intros st i j Ho H; simpl in H; [discriminate|].
  destruct (step_opened c Ho) as [(Hc & Ho')|(Hc & -> & _)]; rewrite Hc in H.
  - apply (IH _ _ _ Ho') in H. destruct H as (Hle & Hn).
    split; [lia|]. replace (j - i) with (S (j - S i)) by lia. exact Hn.
  - injection H as <-. rewrite Nat.sub_diag. split; [lia|reflexivity].
Qed.

(** The block of a declaration ends at a closing brace or at the end of
    the file.  Either it runs from the first opening brace at or after
    [startPos] to a closing brace that comes after it: [endLine] is the line
    of that closing brace and the emitted text is made of the lines from the
    one of the opening brace to the one of the closing brace.  Or [endLine]
    is the last line of the file and the emitted text runs to the end of the
    file. *)
Theorem block_ends_at_brace_or_end_of_file (content : jsstring)
  (startPos : nat) :
  startPos <= length content ->
  (exists i j,
     startPos <= i < j /\ j < length content
     /\ nth_error content i = Some 123%N
     /\ (forall k, startPos <= k < i -> nth_error content k <> Some 123%N)
     /\ nth_error content j = Some 125%N
     /\ be_endLine (_findJSBlockEnd content startPos (split NL content))
        = lineOf content (j + 1)
     /\ be_blockCode (_findJSBlockEnd content startPos (split NL content))
        = join [NL] (linesBetween (split NL content) (lineOf content i)
                       (lineOf content (j + 1))))
  \/ (be_endLine (_findJSBlockEnd content startPos (split NL content))
      = length (split NL content)
      /\ exists before,
           content
           = before
             ++ be_blockCode (_findJSBlockEnd content startPos
                                (split NL content))).
Proof.
  intros Hp.
  destruct (@findJSBlockEnd_lines content startPos Hp) as (_ & _ & _ & D).
  rewrite D. clear D. unfold _findJSBlockEnd, codeStartLine.
  pose proof (skipToBrace_bounds (skipn startPos content) startPos) as Hi.
  pose proof (@skipToBrace_char (skipn startPos content) startPos) as Hch.
  pose proof (@skipToBrace_first (skipn startPos content) startPos) as Hfst.
  rewrite length_skipn in Hi, Hch.
  set (i := skipToBrace startPos (skipn startPos content)) in *.
  destruct (scanLoop scanStart i (skipn i content)) as [j|] eqn:Es.
  2: { right. cbn [be_endLine be_blockCode]. split; [reflexivity|].
       destruct (i <? length content).
       - rewrite <- slice_linesBetween
           by (pose proof (lineOf_pos content i);
               pose proof (lineOf_le_lines content i); lia).
         rewrite <- skipn_as_slice. apply join_skipn_suffix.
       - rewrite <- slice_linesBetween
           by (pose proof (lineOf_pos content startPos);
               pose proof (lineOf_le_lines content startPos); lia).
         rewrite <- skipn_as_slice. apply join_skipn_suffix. }
  left.
  pose proof (@scanLoop_bounds _ _ _ _ Es) as Hj. rewrite length_skipn in Hj.
  assert (Hlt : i < length content) by lia.
  specialize (Hch ltac:(lia)).
  rewrite nth_error_skipn in Hch.
  replace (startPos + (i - startPos)) with i in Hch by lia.
  assert (Hsk : skipn i content = 123%N :: skipn (S i) content)
    by (now apply Docstring.skipn_nth_error).
  rewrite Hsk in Es. remember (skipn (S i) content) as tail eqn:Et.
  simpl in Es.
  assert (Hopen : opened (step scanStart 123%N))
    by (split; simpl; [reflexivity|lia]).
  apply (@scanLoop_opened _ _ _ _ Hopen) in Es. destruct Es as (Hle & Hn).
  rewrite Et, nth_error_skipn in Hn.
  replace (S i + (j - S i)) with j in Hn by lia.
  exists i, j.
  split; [lia|]. split; [lia|]. split; [exact Hch|]. split.
  - intros k Hk. specialize (Hfst (k - startPos) ltac:(lia)).
    rewrite nth_error_skipn in Hfst.
    replace (startPos + (k - startPos)) with k in Hfst by lia. exact Hfst.
  - split; [exact Hn|]. cbn [be_endLine]. split; [reflexivity|].
    apply Nat.ltb_lt in Hlt. now rewrite Hlt.
Qed.

Definition nested : jsstring :=
  text [ "function f(a)"; "{ if (a) { return '}'; }"; "}"; "f(1);" ]%string.

Lemma block_ends_at_brace_or_end_of_file_witness :
  be_endLine (_findJSBlockEnd nested 0 (split NL nested)) = 3
  /\ length (split NL nested) = 4
  /\ ((exists i j,
         0 <= i < j /\ j < length nested
         /\ nth_error nested i = Some 123%N
         /\ (forall k, 0 <= k < i -> nth_error nested k <> Some 123%N)
         /\ nth_error nested j = Some 125%N
         /\ be_endLine (_findJSBlockEnd nested 0 (split NL nested))
            = lineOf nested (j + 1)
         /\ be_blockCode (_findJSBlockEnd nested 0 (split NL nested))
            = join [NL] (linesBetween (split NL nested) (lineOf nested i)
                           (lineOf nested (j + 1))))
      \/ (be_endLine (_findJSBlockEnd nested 0 (split NL nested))
          = length (split NL nested)
          /\ exists before,
               nested
               = before
                 ++ be_blockCode (_findJSBlockEnd nested 0
                                    (split NL nested)))).
Proof.
  split; [vm_compute; reflexivity|]. split; [vm_compute; reflexivity|].
  apply (@block_ends_at_brace_or_end_of_file nested 0).
  simpl. lia.
Defined.

End Scan.

(** ** _findJSBlockEnd: the depth on text without quotes *)
Module Balance.
Import Str StrFacts Js JsFacts.

Lemma closed_is_balanced (s : jsstring) (n : nat) :
  noQuotes (123%N :: s) ->
  closed (stateAfter scanStart (123%N :: s) (S n))
  = Z.eqb (balance (firstn (S n) (123%N :: s))) 0.
Proof.
  intros Hq. unfold stateAfter, closed.
  pose proof (noQuotes_firstn (S n) Hq) as Hq'.
  destruct (@scan_counts_braces _ scanStart Hq' eq_refl) as (_ & H2 & H3).
  rewrite H2, H3. simpl. reflexivity.
Qed.

Lemma endLine_of_scan (content : jsstring) (startPos : nat) :
  be_endLine (_findJSBlockEnd content startPos (split NL content))
  = match scanLoop scanStart (skipToBrace startPos (skipn startPos content))
            (skipn (skipToBrace startPos (skipn startPos content)) content)
    with
    | Some j => lineOf content (j + 1)
    | None => length (split NL content)
    end.
Proof.
  unfold _findJSBlockEnd.
  destruct (scanLoop scanStart (skipToBrace startPos (skipn startPos content))
              (skipn (skipToBrace startPos (skipn startPos content)) content));
    reflexivity.
Qed.

Lemma scan_without_quotes (content : jsstring) (startPos : nat) :
  noQuotes (skipn (skipToBrace startPos (skipn startPos content)) content) ->
  match scanLoop scanStart (skipToBrace startPos (skipn startPos content))
          (skipn (skipToBrace startPos (skipn startPos content)) content) with
  | Some j =>
      balance (firstn (S (j - skipToBrace startPos (skipn startPos content)))
                 (skipn (skipToBrace startPos (skipn startPos content))
                    content)) = 0%Z
      /\ (forall n,
            n < j - skipToBrace startPos (skipn startPos content) ->
            balance (firstn (S n)
                       (skipn (skipToBrace startPos (skipn startPos content))
                          content)) <> 0%Z)
      /\ be_endLine (_findJSBlockEnd content startPos (split NL content))
         = lineOf content (j + 1)
  | None =>
      (forall n,
         n < length content - skipToBrace startPos (skipn startPos content) ->
         balance (firstn (S n)
                    (skipn (skipToBrace startPos (skipn startPos content))
                       content)) <> 0%Z)
      /\ be_endLine (_findJSBlockEnd content startPos (split NL content))
         = length (split NL content)
  end.
Proof.
  intros Hq. rewrite !endLine_of_scan.
  pose proof (@skipToBrace_char (skipn startPos content) startPos)
    as Hch.
  pose proof (skipToBrace_bounds (skipn startPos content) startPos) as Hi.
  set (i := skipToBrace startPos (skipn startPos content)) in *.
  remember (skipn i content) as s0 eqn:Es. symmetry in Es.
  destruct s0 as [|c s].
  { cbn [scanLoop]. split; [|reflexivity]. intros n Hn.
    apply (f_equal (@length _)) in Es. rewrite length_skipn in Es.
    simpl in Es. lia. }
  assert (Hlen : i < length content).
  { apply (f_equal (@length _)) in Es. rewrite length_skipn in Es.
    simpl in Es. lia. }
  assert (Hc : c = 123%N).
  { destruct (Nat.le_gt_cases startPos (length content)) as [Hp|Hp].
    - rewrite length_skipn in Hch, Hi.
      specialize (Hch ltac:(lia)). rewrite nth_error_skipn in Hch.
      replace (startPos + (i - startPos)) with i in Hch by lia.
      rewrite (Docstring.skipn_nth_error _ _ Hch) in Es. congruence.
    - rewrite skipn_all2 in Hi by lia. simpl in Hi. lia. }
  subst c.
  match goal with
  | |- match ?t with _ => _ end => destruct t as [j|] eqn:El
  end.
  - destruct (@Braces.scanLoop_first _ _ _ _ El) as (Hle & Hj & Hn).
    rewrite closed_is_balanced in Hj by exact Hq.
    split; [now apply Z.eqb_eq|]. split; [|reflexivity].
    intros n Hlt. specialize (Hn n Hlt).
    rewrite closed_is_balanced in Hn by exact Hq. now apply Z.eqb_neq.
  - split; [|reflexivity]. intros n Hn.
    pose proof (@scanLoop_None_inv _ _ _ El n) as Hcl.
    rewrite closed_is_balanced in Hcl by exact Hq.
    apply Z.eqb_neq. apply Hcl.
    apply (f_equal (@length _)) in Es. rewrite length_skipn in Es.
    rewrite <- Es. exact Hn.
Qed.

(** The first opening brace at or after [startPos] is where the pre-scan
    stops. *)
Lemma skipToBrace_is_first (content : jsstring) (startPos i : nat) :
  startPos <= i < length content ->
  nth_error content i = Some 123%N ->
  (forall k, startPos <= k < i -> nth_error content k <> Some 123%N) ->
  skipToBrace startPos (skipn startPos content) = i.
Proof.
  intros Hb Hi Hno.
  pose proof (skipToBrace_bounds (skipn startPos content) startPos) as Hs.
  pose proof (@skipToBrace_char (skipn startPos content) startPos) as Hch.
  pose proof (@skipToBrace_first (skipn startPos content) startPos) as Hfst.
  rewrite length_skipn in Hs, Hch.
  set (i' := skipToBrace startPos (skipn startPos content)) in *.
  destruct (Nat.lt_trichotomy i' i) as [Hlt|[Heq|Hgt]]; [|exact Heq|].
  - exfalso. specialize (Hch ltac:(lia)). rewrite nth_error_skipn in Hch.
    replace (startPos + (i' - startPos)) with i' in Hch by lia.
    exact (Hno i' ltac:(lia) Hch).
  - exfalso. specialize (Hfst (i - startPos) ltac:(lia)).
    rewrite nth_error_skipn in Hfst.
    replace (startPos + (i - startPos)) with i in Hfst by lia.
    exact (Hfst Hi).
Qed.

(** On text without quote characters the scanner is a plain counter.  Let
    [i] be the position of the first opening brace at or after [startPos],
    with no quote character from [i] on.  Then the block ends at the first
    character after which as many braces have been closed as opened since
    [i], and [endLine] is the line of that character; when there is no such
    character, [endLine] is the last line of the file. *)
Theorem braces_balance_without_quotes (content : jsstring)
  (startPos i : nat) :
  startPos <= i < length content ->
  nth_error content i = Some 123%N ->
  (forall k, startPos <= k < i -> nth_error content k <> Some 123%N) ->
  noQuotes (skipn i content) ->
  (exists n,
     n < length content - i
     /\ balance (firstn (S n) (skipn i content)) = 0%Z
     /\ (forall n', n' < n ->
                    balance (firstn (S n') (skipn i content)) <> 0%Z)
     /\ be_endLine (_findJSBlockEnd content startPos (split NL content))
        = lineOf content (i + n + 1))
  \/ ((forall n, n < length content - i ->
                 balance (firstn (S n) (skipn i content)) <> 0%Z)
      /\ be_endLine (_findJSBlockEnd content startPos (split NL content))
         = length (split NL content)).
Proof.
  intros Hb Hi Hno Hq.
  pose proof (@skipToBrace_is_first content startPos i Hb Hi Hno) as Ei.
  pose proof (scan_without_quotes content startPos) as H.
  rewrite Ei in H. specialize (H Hq).
  destruct (scanLoop scanStart i (skipn i content)) as [j|] eqn:Es.
  - left. apply scanLoop_bounds in Es. rewrite length_skipn in Es.
    destruct H as (H0 & Hn & He).
    exists (j - i). split; [lia|]. split; [exact H0|]. split; [exact Hn|].
    rewrite He. f_equal. lia.
  - right. exact H.
Qed.

Definition twoBlocks : jsstring :=
  text [ "function f(a) {"; "  if (a) { return 1; }"; "}";
         "function g() {}" ]%string.

Lemma braces_balance_without_quotes_witness :
  noQuotes (skipn 14 twoBlocks)
  /\ be_endLine (_findJSBlockEnd twoBlocks 0 (split NL twoBlocks)) = 3
  /\ ((exists n,
         n < length twoBlocks - 14
         /\ balance (firstn (S n) (skipn 14 twoBlocks)) = 0%Z
         /\ (forall n', n' < n ->
                        balance (firstn (S n') (skipn 14 twoBlocks)) <> 0%Z)
         /\ be_endLine (_findJSBlockEnd twoBlocks 0 (split NL twoBlocks))
            = lineOf twoBlocks (14 + n + 1))
      \/ ((forall n, n < length twoBlocks - 14 ->
                     balance (firstn (S n) (skipn 14 twoBlocks)) <> 0%Z)
          /\ be_endLine (_findJSBlockEnd twoBlocks 0 (split NL twoBlocks))
             = length (split NL twoBlocks))).
Proof.
  assert (Hq : noQuotes (skipn 14 twoBlocks)).
  { unfold noQuotes. apply Forall_forall. intros c Hin.
    vm_compute in Hin.
    repeat (destruct Hin as [<-|Hin]; [reflexivity|]). destruct Hin. }
  split; [exact Hq|]. split; [vm_compute; reflexivity|].
  apply (@braces_balance_without_quotes twoBlocks 0 14).
  - vm_compute. lia.
  - vm_compute. reflexivity.
  - intros k Hk.
    do 14 (destruct k as [|k]; [vm_compute; discriminate|]). lia.
  - exact Hq.
Defined.

End Balance.

(** ** The documentation of a chunk *)
Module Docs.
Import Str Re ReFacts PatternFacts ChunkFacts.

(** A string that neither starts nor ends with white space. *)
Definition trimmed (d : jsstring) : Prop :=
  (forall c t, d = c :: t -> isSpace c = false)
  /\ (forall t c, d = t ++ [c] -> isSpace c = false).

Lemma trimStart_head (l : jsstring) (c : char16) (t : jsstring) :
  trimStart l = c :: t -> isSpace c = false.
Proof.
  induction l as [|x l IH]; simpl; [discriminate|].
  destruct (isSpace x) eqn:E; [exact IH|].
  intros H. injection H as <- _. exact E.
Qed.

Lemma trim_trimmed (x : jsstring) : trimmed (trim x).
Proof.
  unfold trim, trimEnd.
  set (y := trimStart x). set (z := trimStart (rev y)).
  destruct (Docstring.trimStart_suffix (rev y)) as (ws & Hws). fold z in Hws.
  split.
  - intros c t H.
    assert (Hy : y = (c :: t) ++ rev ws).
    { rewrite <- H, <- rev_app_distr, <- Hws. symmetry. apply rev_involutive. }
    exact (trimStart_head x Hy).
  - intros t c H.
    assert (Hz : z = c :: rev t).
    { rewrite <- (rev_involutive z), H, rev_app_distr. reflexivity. }
    exact (trimStart_head (rev y) Hz).
Qed.

Lemma python_docstring_is_a_trim lines startLineIndex d :
  Py.docstringOf lines startLineIndex = Some d -> exists x, d = trim x.
Proof.
  rewrite Docstring.docstring_is_one_line.
  destruct (nth_error lines (startLineIndex + 1)) as [line|]; [|discriminate].
  destruct (startsWith Py.tripleDouble (trim line));
    [|destruct (startsWith Py.tripleSingle (trim line))];
    intros H; try discriminate; injection H as <-; eauto.
Qed.

Lemma javascript_docstring_is_a_trim content startPos d :
  Js.docstringOf content startPos = Some d -> exists x, d = trim x.
Proof.
  unfold Js.docstringOf.
  destruct (matchFirst Js.docPattern (prefix startPos content)) as [m|];
    [|discriminate].
  destruct (group 1 m); intros H; try discriminate.
  injection H as <-. eauto.
Qed.

(** The documentation of a chunk, when there is one, neither starts nor
    ends with white space, in both languages. *)
Theorem docstrings_are_trimmed lang content path chunks :
  parseFile lang content path = Some chunks ->
  Forall (fun c => forall d, docString c = Some d -> trimmed d) chunks.
Proof.
  intros H. apply Forall_forall. intros c Hc d Hd.
  assert (Hx : exists x, d = trim x).
  { assert (Hcase :
      (lang = python /\ Py._parsePython content path = Some chunks)
      \/ Js._parseJavaScriptTypeScript content path lang = Some chunks)
      by (destruct lang; simpl in H; auto).
    destruct Hcase as [(-> & Hp)|Hj].
    - destruct (@python_chunks _ _ _ _ Hp Hc) as (m & _ & ->).
      unfold Py.chunkOf in Hd. cbn [docString] in Hd.
      unfold Py._findPythonBlockEnd in Hd. cbn [Py.be_docstring] in Hd.
      eapply python_docstring_is_a_trim; eassumption.
    - destruct (@javascript_chunks _ _ _ _ _ Hj Hc) as (m & _ & ->).
      unfold Js.chunkOf in Hd. cbn [docString] in Hd.
      assert (Hdoc : Js.be_docstring
                       (Js._findJSBlockEnd content (index m)
                          (split NL content))
                     = Js.docstringOf content (index m)).
      { unfold Js._findJSBlockEnd.
        destruct (Js.scanLoop _ _ _); reflexivity. }
      rewrite Hdoc in Hd.
      eapply javascript_docstring_is_a_trim; eassumption. }
  destruct Hx as (x & ->). apply trim_trimmed.
Qed.

Definition paddedDoc : jsstring :=
  text [ "def f():"; "    '''   spaced out   '''"; "    pass" ]%string.

Lemma docstrings_are_trimmed_witness :
  Py._parsePython paddedDoc (u "p.py")
  = Some [ mkChunk (u "p.py") python function (u "f") 1 3
                   (Some (u "spaced out")) paddedDoc ]
  /\ Forall (fun c => forall d, docString c = Some d -> trimmed d)
            [ mkChunk (u "p.py") python function (u "f") 1 3
                      (Some (u "spaced out")) paddedDoc ].
Proof.
  split; [vm_compute; reflexivity|].
  apply (@docstrings_are_trimmed python paddedDoc (u "p.py")).
  vm_compute. reflexivity.
Defined.





End Docs.

(** ** The text of a chunk, line by line *)
Module Roundtrip.
Import Str StrFacts Re ReFacts ChunkFacts.

Definition oneLine (l : jsstring) : Prop := ~ In NL l.

Lemma split_oneLine (l : jsstring) : oneLine l -> split NL l = [l].
Proof.
  induction l as [|c l IH]; intros H; [reflexivity|].
  simpl. destruct (N.eqb c NL) eqn:E.
  - apply N.eqb_eq in E. exfalso. apply H. left. now symmetry.
  - rewrite IH; [reflexivity|]. intros Hin. apply H. now right.
Qed.

Lemma split_line_then (l rest : jsstring) :
  oneLine l -> split NL (l ++ NL :: rest) = l :: split NL rest.
Proof.
  induction l as [|c l IH]; intros H.
  - simpl. reflexivity.
  - simpl. destruct (N.eqb c NL) eqn:E.
    + apply N.eqb_eq in E. exfalso. apply H. left. now symmetry.
    + rewrite IH; [reflexivity|]. intros Hin. apply H. now right.
Qed.

(** Splitting undoes joining, for lines that hold no line feed. *)
Lemma split_join (parts : list jsstring) :
  parts <> [] -> Forall oneLine parts ->
  split NL (join [NL] parts) = parts.
Proof.
  induction parts as [|p parts IH]; intros Hne Hall; [congruence|].
  inversion Hall as [|? ? Hp Hrest]; subst.
  destruct parts as [|q parts].
  - simpl. now apply split_oneLine.
  - rewrite join_cons by congruence.
    change ([NL] ++ join [NL] (q :: parts))
      with (NL :: join [NL] (q :: parts)).
    rewrite split_line_then by exact Hp.
    rewrite IH; [reflexivity|congruence|exact Hrest].
Qed.

Lemma split_lines_oneLine (s : jsstring) : Forall oneLine (split NL s).
Proof.
  induction s as [|c s IH]; [constructor; [intros []|constructor]|].
  simpl. destruct (N.eqb c NL) eqn:E.
  - constructor; [intros []|exact IH].
  - destruct (split NL s) as [|l ls]; [constructor; [|constructor]|].
    + intros [H|[]]. subst c. discriminate.
    + inversion IH as [|? ? Hl Hls]; subst. constructor; [|exact Hls].
      intros [H|H]; [subst c; discriminate|now apply Hl].
Qed.

Lemma linesBetween_oneLine (lines : list jsstring) (a b : nat) :
  Forall oneLine lines -> Forall oneLine (linesBetween lines a b).
Proof.
  intros H. unfold linesBetween. apply Forall_forall. intros l Hl.
  apply in_map_iff in Hl. destruct Hl as (k & <- & _).
  destruct (Nat.lt_ge_cases (k - 1) (length lines)) as [Hk|Hk].
  - rewrite Forall_forall in H. apply H. now apply nth_In.
  - rewrite nth_overflow by exact Hk. intros [].
Qed.

Lemma linesBetween_length (lines : list jsstring) (a b : nat) :
  length (linesBetween lines a b) = S b - a.
Proof. unfold linesBetween. now rewrite length_map, length_seq. Qed.

Lemma code_round_trip (lines : list jsstring) (first last : nat)
  (code : jsstring) :
  Forall oneLine lines -> first <= last ->
  code = join [NL] (linesBetween lines first last) ->
  split NL code = linesBetween lines first last
  /\ length (split NL code) = last - first + 1.
Proof.
  intros Hl Hle ->.
  assert (Hne : linesBetween lines first last <> []).
  { intros E. apply (f_equal (@length _)) in E.
    rewrite linesBetween_length in E. cbn [length] in E. lia. }
  rewrite split_join by (auto using linesBetween_oneLine).
  split; [reflexivity|]. rewrite linesBetween_length. lia.
Qed.

(** Splitting the text of a chunk on line feeds gives back the lines
    [first..endLine] of the file, one for one, so the text has
    [endLine - first + 1] lines; [first] is [startLine] for a Python chunk
    and lies between [startLine] and [endLine] for the others. *)
Theorem code_splits_back_into_lines lang content path chunks :
  parseFile lang content path = Some chunks ->
  Forall (fun c =>
    exists first,
      startLine c <= first <= endLine c
      /\ (lang = python -> first = startLine c)
      /\ split NL (code c)
         = linesBetween (split NL content) first (endLine c)
      /\ length (split NL (code c)) = endLine c - first + 1) chunks.
Proof.
  intros H. apply Forall_forall. intros c Hc.
  pose proof (split_lines_oneLine content) as Hlines.
  assert (Hcase :
    (lang = python /\ Py._parsePython content path = Some chunks)
    \/ (lang <> python
        /\ Js._parseJavaScriptTypeScript content path lang = Some chunks))
    by (destruct lang; simpl in H;
        (left; split; [reflexivity|assumption])
        || (right; split; [discriminate|assumption])).
  destruct Hcase as [(-> & Hp)|(Hnp & Hj)].
  - destruct (@python_chunks _ _ _ _ Hp Hc) as (m & _ & ->).
    unfold Py.chunkOf. cbn [startLine endLine code].
    pose proof (lineOf_pos content (index m)) as H1.
    pose proof (lineOf_le_lines content (index m)) as H2.
    pose proof (@PyFacts.findPythonBlockEnd_bounds
                  (split NL content) _ (conj H1 H2)) as Hb.
    pose proof (@PyFacts.findPythonBlockEnd_code
                  (split NL content) _ (conj H1 H2)) as Hcode.
    exists (lineOf content (index m)).
    split; [lia|]. split; [reflexivity|].
    apply code_round_trip; [exact Hlines|lia|exact Hcode].
  - destruct (@javascript_chunks _ _ _ _ _ Hj Hc) as (m & (Hi & _) & ->).
    unfold Js.chunkOf. cbn [startLine endLine code].
    destruct (@JsFacts.findJSBlockEnd_lines content _ Hi) as (A & B & C & D).
    exists (JsFacts.codeStartLine content (index m)).
    split; [lia|]. split; [congruence|].
    apply code_round_trip; [exact Hlines|lia|exact D].
Qed.

Lemma code_splits_back_into_lines_witness :
  Py._parsePython Classification.classWithMethod (u "a.py")
  = Some [ mkChunk (u "a.py") python class (u "A") 1 3 None
                   (text ["class A:"; "    def f(self):";
                          "        pass"]%string);
           mkChunk (u "a.py") python function (u "g") 4 5 None
                   (text ["def g():"; "    pass"]%string) ]
  /\ Forall (fun c =>
       exists first,
         startLine c <= first <= endLine c
         /\ (python = python -> first = startLine c)
         /\ split NL (code c)
            = linesBetween (split NL Classification.classWithMethod) first
                (endLine c)
         /\ length (split NL (code c)) = endLine c - first + 1)
       [ mkChunk (u "a.py") python class (u "A") 1 3 None
                 (text ["class A:"; "    def f(self):";
                        "        pass"]%string);
         mkChunk (u "a.py") python function (u "g") 4 5 None
                 (text ["def g():"; "    pass"]%string) ].
Proof.
  split; [vm_compute; reflexivity|].
  apply (@code_splits_back_into_lines python Classification.classWithMethod
           (u "a.py")).
  vm_compute. reflexivity.
Defined.

End Roundtrip.

(** ** _parsePython: the kind of a chunk *)
Module Keywords.
Import Str StrFacts Re ReFacts PatternFacts ChunkFacts Py.

(** What the keyword group of the pattern of _parsePython holds. *)
Lemma python_keyword a b :
  Sem (Or (seq [lit (u "async"); plus space; lit (u "def")])
          (Or (lit (u "def")) (lit (u "class")))) a b ->
  consumed a b = u "class" \/ consumed a b = u "def"
  \/ exists ws,
       ws <> [] /\ Forall (fun c => isSpace c = true) ws
       /\ consumed a b = u "async" ++ ws ++ u "def".
Proof.
  intros H. apply Sem_Or_inv in H. destruct H as [H|H].
  - right. right. apply Sem_Cat_inv in H. destruct H as (x & H1 & H).
    apply Sem_Cat_inv in H. destruct H as (y & H2 & H3).
    apply Kinds.Sem_lit in H1. apply Kinds.Sem_lit in H3.
    destruct (@Sem_ident _ _ _ _ _ (fun c Hc => Hc) H2) as (ws & Hr & Hne & Hws).
    exists ws. split; [exact Hne|]. split; [exact Hws|].
    apply reads_consumed. exact (reads_trans H1 (reads_trans Hr H3)).
  - apply Sem_Or_inv in H.
    destruct H as [H|H]; apply Kinds.Sem_lit, reads_consumed in H; auto.
Qed.

Lemma match_keyword content m :
  matchOf pattern content m ->
  group 1 m = Some (u "class") \/ group 1 m = Some (u "def")
  \/ exists ws,
       ws <> [] /\ Forall (fun c => isSpace c = true) ws
       /\ group 1 m = Some (u "async" ++ ws ++ u "def").
Proof.
  intros (_ & st' & H & _ & Hg & _).
  unfold group. rewrite Hg. clear Hg.
  apply Sem_Cat_inv in H. destruct H as (s1 & Hbol & H).
  apply Sem_Bol_inv in Hbol. destruct Hbol as (-> & _).
  apply Sem_Cat_inv in H. destruct H as (s2 & Hkw & H).
  apply Sem_Cat_inv in H. destruct H as (s3 & Hsp & H).
  apply Sem_Cap_inv in H. destruct H as (s4 & Hid & ->).
  pose proof (Sem_noCap Hid eq_refl) as Hc4.
  pose proof (Sem_noCap Hsp eq_refl) as Hc3.
  apply Sem_Cap_inv in Hkw. destruct Hkw as (s2' & Hkw & ->).
  simpl caps. rewrite Hc4, Hc3. simpl caps. simpl get.
  destruct (@python_keyword _ _ Hkw) as [-> | [-> | (ws & Hne & Hws & ->)]];
    eauto 7.
Qed.

(** In a file whose only line terminator is the line feed, every chunk of
    _parsePython is a class or a function, by the keyword of the match it
    is built from: [class] gives a class, [def] and [async def] (with any
    white space between the two words) a function.  No chunk is a
    method. *)
Theorem python_chunk_kinds content path chunks :
  Classification.onlyLineFeeds content ->
  _parsePython content path = Some chunks ->
  Forall (fun c =>
    exists m,
      matchOf pattern content m
      /\ c = chunkOf content (split NL content) path m
      /\ ((group 1 m = Some (u "class") /\ chunkType c = class)
          \/ ((group 1 m = Some (u "def")
               \/ exists ws,
                    ws <> [] /\ Forall (fun x => isSpace x = true) ws
                    /\ group 1 m = Some (u "async" ++ ws ++ u "def"))
              /\ chunkType c = function))) chunks.
Proof.
  intros Hlf H. apply Forall_forall. intros c Hc.
  destruct (@python_chunks _ _ _ _ H Hc) as (m & Hm & ->).
  exists m. split; [exact Hm|]. split; [reflexivity|].
  pose proof (@Classification.declaration_line_not_indented _ _ Hlf Hm)
    as Hind.
  assert (Hnm : _isPythonMethod (split NL content)
                  (lineOf content (index m) - 1) = false).
  { unfold _isPythonMethod. rewrite Hind.
    destruct (lineOf content (index m) - 1 =? 0); reflexivity. }
  unfold chunkOf. cbn [chunkType]. rewrite Hnm.
  destruct (@match_keyword _ _ Hm) as [E | [E | (ws & Hne & Hws & E)]];
    rewrite E.
  - left. split; reflexivity.
  - right. split; [left; reflexivity|reflexivity].
  - right. split; [right; exists ws; auto|reflexivity].
Qed.

Definition threeKeywords : jsstring :=
  text [ "class A:"; "    x = 1"; "async  def run():"; "    pass";
         "def g():"; "    pass" ]%string.

Lemma threeKeywords_lines : Classification.onlyLineFeeds threeKeywords.
Proof.
  apply Forall_forall. intros c Hin. vm_compute in Hin.
  repeat (destruct Hin as [<-|Hin]; [vm_compute; congruence|]).
  destruct Hin.
Qed.

Lemma python_chunk_kinds_witness :
  option_map (map (fun c => (name c, chunkType c)))
             (_parsePython threeKeywords (u "k.py"))
  = Some [ (u "A", class); (u "run", function); (u "g", function) ]
  /\ match _parsePython threeKeywords (u "k.py") with
     | Some chunks =>
         Forall (fun c =>
           exists m,
             matchOf pattern threeKeywords m
             /\ c = chunkOf threeKeywords (split NL threeKeywords)
                            (u "k.py") m
             /\ ((group 1 m = Some (u "class") /\ chunkType c = class)
                 \/ ((group 1 m = Some (u "def")
                      \/ exists ws,
                           ws <> [] /\ Forall (fun x => isSpace x = true) ws
                           /\ group 1 m = Some (u "async" ++ ws ++ u "def"))
                     /\ chunkType c = function))) chunks
     | None => False
     end.
Proof.
  split; [vm_compute; reflexivity|].
  destruct (_parsePython threeKeywords (u "k.py")) as [chunks|] eqn:E.
  - apply (@python_chunk_kinds threeKeywords (u "k.py") chunks
             threeKeywords_lines E).
  - vm_compute in E. discriminate.
Defined.

End Keywords.

(** ** _findPythonBlockEnd: where the documentation is read *)
Module NextLine.
Import Str StrFacts Re ReFacts ChunkFacts Py.

(** The documentation of a Python chunk is read on one line only, the line
    after the one on which the match of the chunk starts: when that line,
    trimmed, starts with three double quotes or three single quotes, the
    documentation is that line without every occurrence of the marker,
    trimmed; otherwise, or when there is no such line, there is none. *)
Theorem python_docstring_is_the_next_line content path chunks :
  _parsePython content path = Some chunks ->
  Forall (fun c =>
    exists m,
      matchOf pattern content m
      /\ c = chunkOf content (split NL content) path m
      /\ startLine c = lineOf content (index m)
      /\ docString c
         = match nth_error (split NL content) (startLine c) with
           | Some line =>
               if startsWith tripleDouble (trim line)
               then Some (trim (removeAll tripleDouble line))
               else if startsWith tripleSingle (trim line)
               then Some (trim (removeAll tripleSingle line))
               else None
           | None => None
           end) chunks.
Proof.
  intros H. apply Forall_forall. intros c Hc.
  destruct (@python_chunks _ _ _ _ H Hc) as (m & Hm & ->).
  exists m. split; [exact Hm|]. split; [reflexivity|].
  split; [reflexivity|].
  unfold chunkOf. cbn [docString startLine].
  unfold _findPythonBlockEnd. cbn [be_docstring].
  rewrite Docstring.docstring_is_one_line.
  pose proof (lineOf_pos content (index m)) as Hpos.
  replace (lineOf content (index m) - 1 + 1) with (lineOf content (index m))
    by lia.
  reflexivity.
Qed.

Definition twoDocs : jsstring :=
  text [ "def f():"; "    '''First line"; "    second line.'''";
         "    pass"; "def g():"; "    return 1" ]%string.

Lemma python_docstring_is_the_next_line_witness :
  option_map (map (fun c => (name c, docString c)))
             (_parsePython twoDocs (u "d.py"))
  = Some [ (u "f", Some (u "First line")); (u "g", None) ]
  /\ match _parsePython twoDocs (u "d.py") with
     | Some chunks =>
         Forall (fun c =>
           exists m,
             matchOf pattern twoDocs m
             /\ c = chunkOf twoDocs (split NL twoDocs) (u "d.py") m
             /\ startLine c = lineOf twoDocs (index m)
             /\ docString c
                = match nth_error (split NL twoDocs) (startLine c) with
                  | Some line =>
                      if startsWith tripleDouble (trim line)
                      then Some (trim (removeAll tripleDouble line))
                      else if startsWith tripleSingle (trim line)
                      then Some (trim (removeAll tripleSingle line))
                      else None
                  | None => None
                  end) chunks
     | None => False
     end.
Proof.
  split; [vm_compute; reflexivity|].
  destruct (_parsePython twoDocs (u "d.py")) as [chunks|] eqn:E.
  - apply (@python_docstring_is_the_next_line twoDocs (u "d.py") chunks E).
  - vm_compute in E. discriminate.
Defined.

End NextLine.
